(** * phone_detect_play.py: the debounce / cooldown loop of [main]

    The script reads camera frames, asks a YOLO model whether a phone is
    visible, and opens a video URL once the phone has been seen for enough
    frames.  What is verified here is the per-frame bookkeeping of [main]
    (lines 72-74 and 110-126 of the source) together with the start-up
    steps that decide whether the loop runs at all ([parse_args], the
    loading of the model and the camera check).

    Further down come the parts of the script around that loop: the
    choice of the class ids that count as a phone (lines 50-55), the scan of
    a frame's boxes with its drawing (lines 87-108), the two exits of the
    loop (lines 79-81 and 132-133) and [open_link_on_mac].

    Python [int] is unbounded, so counters are [Z].  Python [float] is IEEE
    binary64, so times are primitive floats, compared and subtracted with the
    machine operations. *)

From Stdlib Require Import Ascii String.
From Stdlib Require Import ZArith List Bool Lia.
From Stdlib Require Import PrimFloat.
Import ListNotations.

Local Open Scope Z_scope.

Module PhoneDetect.

(** ** Command line *)

(** The fields of the argparse namespace that the loop reads. *)
Record Args := mkArgs {
  frames : Z;          (* --frames, type=int *)
  cooldown : float     (* --cooldown, type=float *)
}.

(** ** Loop state *)

Record State := mkState {
  consecutive_hits : Z;
  detected_stable : bool;
  last_trigger_time : float
}.

(** Lines 72-74. *)
Definition init_state : State :=
  {| consecutive_hits := 0; detected_stable := false; last_trigger_time := 0%float |}.

(** What one iteration takes from outside: [phone_present_this_frame] as
    lines 87-98 compute it from the boxes, and the value that [time.time()]
    returns on line 116. *)
Record Tick := mkTick {
  phone_present_this_frame : bool;
  now : float
}.

(** Lines 111-114. *)
Definition next_hits (s : State) (tk : Tick) : Z :=
  if phone_present_this_frame tk then consecutive_hits s + 1
  else Z.max 0 (consecutive_hits s - 1).

(** [(now - last_trigger_time) >= args.cooldown], line 118. *)
Definition cooldown_elapsed (args : Args) (s : State) (t : float) : bool :=
  PrimFloat.leb (cooldown args) (PrimFloat.sub t (last_trigger_time s)).

(** Line 117. *)
Definition became_stable (args : Args) (s : State) (tk : Tick) : bool :=
  negb (detected_stable s) && (frames args <=? next_hits s tk).

(** The loop body, lines 110-126.  The boolean is whether
    [open_link_on_mac] was called in this iteration. *)
Definition step (args : Args) (s : State) (tk : Tick) : bool * State :=
  let hits := next_hits s tk in
  let fire := became_stable args s tk && cooldown_elapsed args s (now tk) in
  let last := if fire then now tk else last_trigger_time s in
  let stable := if fire then true else detected_stable s in
  let stable := if stable && (hits =? 0) then false else stable in
  (fire, {| consecutive_hits := hits; detected_stable := stable; last_trigger_time := last |}).

(** The loop over the frames that were read, recording each iteration. *)
Fixpoint run (args : Args) (s : State) (ticks : list Tick) : list (bool * State) :=
  match ticks with
  | [] => []
  | tk :: rest =>
      let o := step args s tk in
      o :: run args (snd o) rest
  end.

(** The state in which the loop stops. *)
Definition final (args : Args) (s : State) (ticks : list Tick) : State :=
  fold_left (fun st tk => snd (step args st tk)) ticks s.

Definition triggers (tr : list (bool * State)) : list bool := map fst tr.
Definition hit_scores (tr : list (bool * State)) : list Z :=
  map (fun o => consecutive_hits (snd o)) tr.

(** ** Start-up *)

(** Lines 58-63: the AVFoundation backend is tried first, the default
    backend second. *)
Definition camera_opened (avfoundation_ok default_ok : bool) : bool :=
  if avfoundation_ok then true else default_ok.

(** Shorthand for a frame with, and without, a phone. *)
Definition T (t : float) : Tick := {| phone_present_this_frame := true; now := t |}.
Definition F (t : float) : Tick := {| phone_present_this_frame := false; now := t |}.

(** A stretch of frames that all show a phone, at the given times. *)
Definition present_ticks (ts : list float) : list Tick := map T ts.

(** How many frames of a stretch show a phone, and how many do not. *)
Definition count_present (ticks : list Tick) : Z :=
  Z.of_nat (length (filter phone_present_this_frame ticks)).
Definition count_absent (ticks : list Tick) : Z :=
  Z.of_nat (length (filter (fun tk => negb (phone_present_this_frame tk)) ticks)).

(** ** Class names *)

(** A class name is a Python [str]; here its characters are code points
    below 256.  On those, [str.lower] moves A-Z and the Latin-1 capitals
    (192-222 except the multiplication sign 215) up by 32 and leaves the
    rest alone. *)
Definition lower_char (c : ascii) : ascii :=
  let n := N_of_ascii c in
  if (((65 <=? n) && (n <=? 90)) ||
      ((192 <=? n) && (n <=? 222) && negb (n =? 215)))%N
  then ascii_of_N (n + 32) else c.

Fixpoint lower (n : string) : string :=
  match n with
  | EmptyString => EmptyString
  | String c rest => String (lower_char c) (lower rest)
  end.

(** The characters [str.strip()] removes: tab to carriage return, the four
    separators 28-31, space, NEL and the no-break space. *)
Definition isspace (c : ascii) : bool :=
  let n := N_of_ascii c in
  (((9 <=? n) && (n <=? 13)) || ((28 <=? n) && (n <=? 32)) ||
   (n =? 133) || (n =? 160))%N.

Fixpoint lstrip (n : string) : string :=
  match n with
  | EmptyString => EmptyString
  | String c rest => if isspace c then lstrip rest else n
  end.

Fixpoint rstrip (n : string) : string :=
  match n with
  | EmptyString => EmptyString
  | String c rest =>
      match rstrip rest with
      | EmptyString => if isspace c then EmptyString else String c EmptyString
      | kept => String c kept
      end
  end.

Definition strip (n : string) : string := rstrip (lstrip n).

(** [.replace("_", " ")]. *)
Fixpoint replace_underscore (n : string) : string :=
  match n with
  | EmptyString => EmptyString
  | String c rest =>
      String (if Ascii.eqb c "_"%char then " "%char else c) (replace_underscore rest)
  end.

(** The set literal of lines 51-52. *)
Definition phone_names : list string :=
  ["cell phone"; "cellphone"; "mobile phone"; "smartphone"; "telephone"]%string.

(** The condition of the comprehension on lines 51-52; the names are
    strings already, so [str(n)] is [n]. *)
Definition is_phone_name (n : string) : bool :=
  existsb (String.eqb (replace_underscore (strip (lower n)))) phone_names.

(** Lines 50-55.  [names] is [model.names] when the model has that
    attribute, a dict from class id to name listed in its own order. *)
Definition resolve_phone_ids (names : option (list (Z * string))) : list Z :=
  let name_map := match names with Some m => m | None => [] end in
  let phone_ids := map fst (filter (fun item => is_phone_name (snd item)) name_map) in
  match phone_ids with
  | [] => [67]
  | _ => phone_ids
  end.

(** [name_map.get(cls_id, default)]. *)
Fixpoint dict_get (name_map : list (Z * string)) (k : Z) (default : string) : string :=
  match name_map with
  | [] => default
  | (k', v) :: rest => if k =? k' then v else dict_get rest k default
  end.

(** ** Boxes of one frame *)

(** What lines 92-95 read off a box: the class as an integer, the
    confidence, and the corners as integers. *)
Record Box := mkBox {
  cls_id : Z;
  conf : float;
  x1 : Z; y1 : Z; x2 : Z; y2 : Z
}.

(** The calls made on the frame.  Of [cv2.putText] the font and scale,
    which are constants, are left out; its text is the name followed by
    the confidence shown with two decimals. *)
Inductive DrawOp :=
| rectangle (pt1 pt2 : Z * Z) (color : Z * Z * Z) (thickness : Z)
| putText (name : string) (shown_conf : float) (org : Z * Z)
          (color : Z * Z * Z) (thickness : Z).

(** Line 97: [cls_id in phone_ids and conf >= args.conf]. *)
Definition is_phone_box (phone_ids : list Z) (args_conf : float) (box : Box) : bool :=
  existsb (Z.eqb (cls_id box)) phone_ids && PrimFloat.leb args_conf (conf box).

(** The body of the [for] loop, lines 91-108, on the pair of
    [phone_present_this_frame] and the drawing done so far. *)
Definition scan_box (show : bool) (name_map : list (Z * string))
    (phone_ids : list Z) (args_conf : float)
    (acc : bool * list DrawOp) (box : Box) : bool * list DrawOp :=
  if is_phone_box phone_ids args_conf box then
    (true,
     snd acc ++
     (if show then
        [rectangle (x1 box, y1 box) (x2 box, y2 box) (0, 200, 0) 2;
         putText (dict_get name_map (cls_id box) "phone"%string) (conf box)
                 (x1 box, Z.max 0 (y1 box - 8)) (0, 200, 0) 2]
      else []))
  else
    (fst acc,
     snd acc ++
     (if show then [rectangle (x1 box, y1 box) (x2 box, y2 box) (90, 90, 90) 1]
      else [])).

(** Lines 87-108.  [boxes] is [None] when [results.boxes] is. *)
Definition scan_boxes (show : bool) (name_map : list (Z * string))
    (phone_ids : list Z) (args_conf : float)
    (boxes : option (list Box)) : bool * list DrawOp :=
  match boxes with
  | None => (false, [])
  | Some bs =>
      if (0 <? length bs)%nat
      then fold_left (scan_box show name_map phone_ids args_conf) bs (false, [])
      else (false, [])
  end.

(** ** The loop with its exits *)

(** What one pass of [while True] gets from outside: whether [cap.read()]
    succeeded, the boxes of the frame, the clock, and the value of
    [cv2.waitKey(1)], which is read only under [--show]. *)
Record Frame := mkFrame {
  ok : bool;
  boxes : option (list Box);
  time_time : float;
  waitKey : Z
}.

(** Line 132: [cv2.waitKey(1) & 0xFF == ord('q')]. *)
Definition quit_pressed (key : Z) : bool := Z.land key 255 =? 113.

(** The tick that the loop body sees for a frame. *)
Definition tick_of (show : bool) (name_map : list (Z * string))
    (phone_ids : list Z) (args_conf : float) (f : Frame) : Tick :=
  {| phone_present_this_frame :=
       fst (scan_boxes show name_map phone_ids args_conf (boxes f));
     now := time_time f |}.

(** Lines 77-133: stop before a frame that cannot be read, stop after a
    frame on which [q] is seen under [--show]. *)
Fixpoint loop (args : Args) (show : bool) (name_map : list (Z * string))
    (phone_ids : list Z) (args_conf : float)
    (s : State) (fs : list Frame) : list (bool * State) :=
  match fs with
  | [] => []
  | f :: rest =>
      if ok f then
        let o := step args s (tick_of show name_map phone_ids args_conf f) in
        if show && quit_pressed (waitKey f) then [o]
        else o :: loop args show name_map phone_ids args_conf (snd o) rest
      else []
  end.

(** The frames the loop gets through. *)
Fixpoint processed (show : bool) (fs : list Frame) : list Frame :=
  match fs with
  | [] => []
  | f :: rest =>
      if ok f then
        if show && quit_pressed (waitKey f) then [f]
        else f :: processed show rest
      else []
  end.

(** ** Command line and start-up *)

(** How argparse meets an option that has a [type]: not on the command
    line, on it with text that [int] or [float] refuses, or on it with the
    converted value. *)
Inductive Opt (A : Type) : Type :=
| omitted : Opt A
| refused : Opt A
| given : A -> Opt A.

Arguments omitted {A}.
Arguments refused {A}.
Arguments given {A} _.

(** A command line that names only options the parser declares, each with
    its text. *)
Record CommandLine := mkCommandLine {
  arg_url : option string;        (* --url, required=True *)
  arg_camera : Opt Z;             (* --camera, type=int *)
  arg_model : option string;      (* --model *)
  arg_conf : Opt float;           (* --conf, type=float *)
  arg_frames : Opt Z;             (* --frames, type=int *)
  arg_cooldown : Opt float;       (* --cooldown, type=float *)
  arg_open_with : option string;  (* --open-with *)
  arg_show : bool                 (* --show, store_true *)
}.

(** The namespace [parse_args] returns; [ns_args] holds its [frames] and
    [cooldown]. *)
Record Namespace := mkNamespace {
  ns_url : string;
  ns_camera : Z;
  ns_model : string;
  ns_conf : float;
  ns_args : Args;
  ns_open_with : option string;
  ns_show : bool
}.

(** The value of a typed option: its default when omitted, nothing when
    the conversion refuses the text. *)
Definition convert {A : Type} (o : Opt A) (default : A) : option A :=
  match o with
  | omitted => Some default
  | refused => None
  | given a => Some a
  end.

(** The default of [--conf], [0.45] as a binary64 value. *)
Definition default_conf : float := 0x1.ccccccccccccdp-2%float.

(** Lines 28-38.  [None] is argparse leaving with status 2: [--url] is
    missing or a text does not convert.  No option has [choices], a range
    or a [type] of its own. *)
Definition parse_args (cl : CommandLine) : option Namespace :=
  match arg_url cl,
        convert (arg_camera cl) 0,
        convert (arg_conf cl) default_conf,
        convert (arg_frames cl) 6,
        convert (arg_cooldown cl) 10%float with
  | Some u, Some cam, Some cf, Some fr, Some cd =>
      Some {| ns_url := u;
              ns_camera := cam;
              ns_model := match arg_model cl with
                          | Some m => m
                          | None => "yolov8n.pt"%string
                          end;
              ns_conf := cf;
              ns_args := {| frames := fr; cooldown := cd |};
              ns_open_with := arg_open_with cl;
              ns_show := arg_show cl |}
  | _, _, _, _, _ => None
  end.

(** The ways [main] ends before its loop. *)
Inductive Failure :=
| usage_exit      (* argparse, status 2 *)
| model_raised    (* YOLO(args.model) on line 47 raised *)
| camera_exit.    (* sys.exit(1) on line 63 *)

(** [main], lines 41-133.  [loaded] is what [YOLO(args.model)] gives:
    nothing when it raises, else the model's [names] if it has that
    attribute.  The two camera flags say whether each backend opens the
    camera, [fs] is what the loop meets. *)
Definition main (cl : CommandLine)
    (loaded : option (option (list (Z * string))))
    (avfoundation_ok default_ok : bool) (fs : list Frame)
    : Failure + list (bool * State) :=
  match parse_args cl with
  | None => inl usage_exit
  | Some ns =>
      match loaded with
      | None => inl model_raised
      | Some names =>
          let name_map := match names with Some m => m | None => [] end in
          let phone_ids := resolve_phone_ids names in
          if camera_opened avfoundation_ok default_ok
          then inr (loop (ns_args ns) (ns_show ns) name_map phone_ids (ns_conf ns)
                         init_state fs)
          else inl camera_exit
      end
  end.

(** The command line [cl] with [--frames f --cooldown c] on it. *)
Definition with_values (cl : CommandLine) (f : Z) (c : float) : CommandLine :=
  {| arg_url := arg_url cl;
     arg_camera := arg_camera cl;
     arg_model := arg_model cl;
     arg_conf := arg_conf cl;
     arg_frames := given f;
     arg_cooldown := given c;
     arg_open_with := arg_open_with cl;
     arg_show := arg_show cl |}.

(** ** Opening the link *)

(** What [open_link_on_mac] does to the outside. *)
Inductive Effect :=
| subprocess_run (argv : list string)
| webbrowser_open (url : string)
| print_fallback.

(** Lines 17-20.  [if app:] is false for [None] and for the empty
    string. *)
Definition open_argv (url : string) (app : option string) : list string :=
  match app with
  | Some (String c rest) => ["open"; "-a"; String c rest; url]%string
  | _ => ["open"; url]%string
  end.

(** Lines 16-25.  [raised] says whether [subprocess.run] raised; with
    [check=False] a failing exit status of [open] does not. *)
Definition open_link_on_mac (url : string) (app : option string) (raised : bool)
    : list Effect :=
  subprocess_run (open_argv url app) ::
  (if raised then [webbrowser_open url; print_fallback] else []).

(** ** Vocabulary for the statements below *)

(** A stretch of frames none of which shows a phone, at the given times. *)
Definition absent_ticks (ts : list float) : list Tick := map F ts.

Definition is_rectangle (d : DrawOp) : bool :=
  match d with
  | rectangle _ _ _ _ => true
  | putText _ _ _ _ _ => false
  end.

(** A label is written in green, thickness 2, at a height that is on the
    image. *)
Definition label_on_image (d : DrawOp) : Prop :=
  match d with
  | rectangle _ _ _ _ => True
  | putText _ _ org color thickness =>
      0 <= snd org /\ color = (0, 200, 0) /\ thickness = 2
  end.

(** A string of white-space characters, of those below code point 256. *)
Definition all_space (n : string) : Prop :=
  Forall (fun c => isspace c = true) (list_ascii_of_string n).

(** ** Basic facts about one iteration *)

Lemma step_fire args s tk :
  fst (step args s tk) = became_stable args s tk && cooldown_elapsed args s (now tk).
Proof. reflexivity. Qed.

Lemma step_hits args s tk :
  consecutive_hits (snd (step args s tk)) = next_hits s tk.
Proof. reflexivity. Qed.

Lemma next_hits_nonneg s tk :
  0 <= consecutive_hits s -> 0 <= next_hits s tk.
Proof. unfold next_hits; destruct (phone_present_this_frame tk); lia. Qed.

Lemma next_hits_present_pos s tk :
  0 <= consecutive_hits s -> phone_present_this_frame tk = true -> 0 < next_hits s tk.
Proof. unfold next_hits; intros H ->; lia. Qed.

Lemma next_hits_T s t : next_hits s (T t) = consecutive_hits s + 1.
Proof. reflexivity. Qed.

Lemma final_app args s xs ys :
  final args s (xs ++ ys) = final args (final args s xs) ys.
Proof. unfold final; apply fold_left_app. Qed.

Lemma final_cons args s tk rest :
  final args s (tk :: rest) = final args (snd (step args s tk)) rest.
Proof. reflexivity. Qed.

Lemma run_length args ticks : forall s, length (run args s ticks) = length ticks.
Proof. induction ticks as [|tk rest IH]; intros s; simpl; [reflexivity | now rewrite IH]. Qed.

Lemma run_app args xs ys : forall s,
  run args s (xs ++ ys) = run args s xs ++ run args (final args s xs) ys.
Proof.
  induction xs as [|tk rest IH]; intros s; simpl; [reflexivity|].
  now rewrite IH.
Qed.

(** The counter never goes below zero once it is non-negative. *)
Lemma final_hits_nonneg args ticks : forall s,
  0 <= consecutive_hits s -> 0 <= consecutive_hits (final args s ticks).
Proof.
  induction ticks as [|tk rest IH]; intros s Hs; [exact Hs|].
  rewrite final_cons. apply IH. rewrite step_hits. now apply next_hits_nonneg.
Qed.

(** Without a fire, the flag and the stamp pass through, the flag being
    cleared only at a zero count. *)
Lemma step_no_fire args s tk :
  fst (step args s tk) = false ->
  last_trigger_time (snd (step args s tk)) = last_trigger_time s /\
  detected_stable (snd (step args s tk)) =
    (if detected_stable s && (next_hits s tk =? 0) then false else detected_stable s).
Proof.
  unfold step; cbn [fst snd last_trigger_time detected_stable].
  intros ->. split; reflexivity.
Qed.

(** With a fire, the stamp is the frame's time and the flag is set unless
    the count is zero. *)
Lemma step_on_fire args s tk :
  fst (step args s tk) = true ->
  detected_stable s = false /\
  frames args <= next_hits s tk /\
  cooldown_elapsed args s (now tk) = true /\
  last_trigger_time (snd (step args s tk)) = now tk /\
  detected_stable (snd (step args s tk)) = negb (next_hits s tk =? 0).
Proof.
  unfold step; cbn [fst snd last_trigger_time detected_stable].
  intros Hf. rewrite Hf. cbn [andb].
  unfold became_stable in Hf.
  apply andb_prop in Hf as [Hb Hc]. apply andb_prop in Hb as [Hn Hle].
  apply negb_true_iff in Hn. apply Z.leb_le in Hle.
  repeat split; try assumption.
Qed.

(** A set flag survives every iteration that ends with a non-zero count. *)
Lemma step_keeps_stable args s tk :
  detected_stable s = true ->
  next_hits s tk <> 0 ->
  fst (step args s tk) = false /\ detected_stable (snd (step args s tk)) = true.
Proof.
  intros Hs Hn.
  assert (Hf : fst (step args s tk) = false).
  { rewrite step_fire. unfold became_stable. now rewrite Hs. }
  split; [exact Hf|].
  destruct (step_no_fire args s tk Hf) as [_ ->].
  rewrite Hs. apply Z.eqb_neq in Hn. now rewrite Hn.
Qed.

Lemma some_pair {A B : Type} (x : A * B) (a : A) (b : B) :
  Some x = Some (a, b) -> fst x = a /\ snd x = b.
Proof. intros H. assert (E : x = (a, b)) by congruence. now rewrite E. Qed.

(** The cooldown test reads the state only through its time stamp. *)
Lemma cooldown_elapsed_ext args s1 s2 t :
  last_trigger_time s1 = last_trigger_time s2 ->
  cooldown_elapsed args s1 t = cooldown_elapsed args s2 t.
Proof. unfold cooldown_elapsed; now intros ->. Qed.

(** Every recorded iteration is the loop body run on some state. *)
Lemma run_nth args ticks : forall s j o,
  nth_error (run args s ticks) j = Some o ->
  exists s' tk, o = step args s' tk.
Proof.
  induction ticks as [|tk rest IH]; intros s j o Hj.
  - destruct j; discriminate.
  - destruct j as [|j]; cbn [run nth_error] in Hj.
    + injection Hj as <-. now exists s, tk.
    + eapply IH, Hj.
Qed.

(** While nothing fires, an unset flag stays unset and the stamp stays. *)
Lemma quiet_run_keeps args ticks : forall s,
  detected_stable s = false ->
  Forall (fun o => fst o = false) (run args s ticks) ->
  detected_stable (final args s ticks) = false /\
  last_trigger_time (final args s ticks) = last_trigger_time s.
Proof.
  induction ticks as [|tk rest IH]; intros s Hs Hq; [now split|].
  cbn [run] in Hq. inversion Hq as [|? ? Hf Hrest]; subst.
  destruct (step_no_fire args s tk Hf) as [Hl Hst].
  rewrite Hs in Hst; cbn [andb] in Hst.
  rewrite final_cons. destruct (IH _ Hst Hrest) as [H1 H2].
  split; [exact H1 | now rewrite H2].
Qed.

(** Once the flag is set, frames with a phone never fire. *)
Lemma stable_present_quiet args ts : forall s,
  detected_stable s = true ->
  0 <= consecutive_hits s ->
  triggers (run args s (present_ticks ts)) = repeat false (length ts).
Proof.
  induction ts as [|t ts IH]; intros s Hs Hh; [reflexivity|].
  cbn [present_ticks map run triggers length repeat].
  assert (Hp : 0 < next_hits s (T t)) by now apply next_hits_present_pos.
  destruct (step_keeps_stable args s (T t) Hs) as [Hf Hst]; [lia|].
  rewrite Hf. f_equal. apply IH; [exact Hst | rewrite step_hits; lia].
Qed.

(** Once the flag is set, a later fire is preceded by a zero count. *)
Lemma stable_until_zero args ticks : forall s j sj,
  detected_stable s = true ->
  nth_error (run args s ticks) j = Some (true, sj) ->
  exists k o, (k < j)%nat /\ nth_error (run args s ticks) k = Some o /\
              consecutive_hits (snd o) = 0.
Proof.
  induction ticks as [|tk rest IH]; intros s j sj Hs Hj.
  - destruct j; discriminate.
  - destruct (Z.eq_dec (next_hits s tk) 0) as [Hz|Hnz].
    + destruct j as [|j].
      * cbn [run nth_error] in Hj.
        apply some_pair in Hj as [Hf _].
        rewrite step_fire in Hf. unfold became_stable in Hf. now rewrite Hs in Hf.
      * exists 0%nat, (step args s tk). repeat split; [lia | exact Hz].
    + destruct (step_keeps_stable args s tk Hs Hnz) as [Hf Hst].
      destruct j as [|j]; cbn [run nth_error] in Hj.
      * apply some_pair in Hj as [Hj _]. rewrite Hj in Hf. discriminate.
      * destruct (IH _ _ _ Hst Hj) as (k & o & Hk & Ho & Hz).
        exists (S k), o. repeat split; [lia | exact Ho | exact Hz].
Qed.

(** Threshold reached, flag unset, cooldown still running: frames with a
    phone keep that situation and fire nothing. *)
Lemma pending_present_quiet args ts : forall s,
  detected_stable s = false ->
  0 <= consecutive_hits s ->
  frames args <= consecutive_hits s ->
  Forall (fun u => cooldown_elapsed args s u = false) ts ->
  triggers (run args s (present_ticks ts)) = repeat false (length ts) /\
  detected_stable (final args s (present_ticks ts)) = false /\
  0 <= consecutive_hits (final args s (present_ticks ts)) /\
  frames args <= consecutive_hits (final args s (present_ticks ts)) /\
  last_trigger_time (final args s (present_ticks ts)) = last_trigger_time s.
Proof.
  induction ts as [|t ts IH]; intros s Hs Hh Hf Hc; [now repeat split|].
  inversion Hc as [|? ? Ht Hrest]; subst.
  assert (Hq : fst (step args s (T t)) = false).
  { rewrite step_fire. cbn [T now]. rewrite Ht. apply andb_false_r. }
  destruct (step_no_fire args s (T t) Hq) as [Hl Hst].
  rewrite Hs in Hst; cbn [andb] in Hst.
  pose proof (next_hits_T s t) as Hn.
  destruct (IH (snd (step args s (T t)))) as (I1 & I2 & I3 & I4 & I5).
  - exact Hst.
  - rewrite step_hits, Hn. lia.
  - rewrite step_hits, Hn. lia.
  - eapply Forall_impl; [|exact Hrest].
    intros u Hu. cbv beta in *. rewrite <- Hu. now apply cooldown_elapsed_ext.
  - cbn [present_ticks map run triggers length repeat].
    fold (present_ticks ts). rewrite final_cons.
    unfold triggers in I1. rewrite Hq, I1.
    repeat split; try assumption. now rewrite I5.
Qed.

End PhoneDetect.

Import PhoneDetect.

(** ** The counter *)

(** C1, as claimed, fails: with [--frames 1] two frames with a phone leave
    the counter at 2, above the threshold, and the second update is not
    [min (1 + 1) 1]. *)
Lemma saturation_law_counterexample :
  let args := {| frames := 1; cooldown := 0%float |} in
  let tr := run args init_state [T 0; T 1] in
  0 < frames args /\
  hit_scores tr = [1; 2] /\
  ~ Forall (fun h => 0 <= h <= frames args) (hit_scores tr) /\
  next_hits (final args init_state [T 0]) (T 1) <> Z.min (1 + 1) (frames args).
Proof.
  cbv zeta. repeat split; try reflexivity; try discriminate.
  intros H. inversion H as [|? ? _ H2]; subst. inversion H2 as [|? ? H3 _]; subst.
  cbn in H3. lia.
Qed.

(** C1, amended: the counter is never negative after any iteration, and it
    is bounded above only by the number of frames seen so far; a frame with
    a phone adds one (there is no cap at the threshold), a frame without
    one subtracts one down to zero. *)
Theorem hit_score_law (args : Args) :
  (forall s tk,
     consecutive_hits (snd (step args s tk)) =
       if phone_present_this_frame tk then consecutive_hits s + 1
       else Z.max (consecutive_hits s - 1) 0) /\
  (forall ticks j o,
     nth_error (run args init_state ticks) j = Some o ->
     0 <= consecutive_hits (snd o) <= Z.of_nat (S j)).
Proof.
  split.
  - intros s tk. rewrite step_hits. unfold next_hits.
    destruct (phone_present_this_frame tk); [reflexivity | apply Z.max_comm].
  - intros ticks.
    assert (G : forall ts s n j o,
               0 <= consecutive_hits s <= n ->
               nth_error (run args s ts) j = Some o ->
               0 <= consecutive_hits (snd o) <= n + Z.of_nat (S j)).
    { induction ts as [|tk rest IH]; intros s n j o Hs Hj.
      - destruct j; discriminate.
      - destruct j as [|j]; cbn [run nth_error] in Hj.
        + injection Hj as <-. rewrite step_hits. unfold next_hits.
          destruct (phone_present_this_frame tk); lia.
        + eapply (IH _ (n + 1)) in Hj.
          * lia.
          * rewrite step_hits. unfold next_hits. destruct (phone_present_this_frame tk); lia. }
    intros j o Hj. apply (G ticks init_state 0 j o); [cbn; lia | exact Hj].
Qed.

(** C9: from a zero count, [k] frames with a phone leave the count at
    exactly [k], whatever the threshold; and over any stretch of frames the
    count falls by no more than the absent frames minus the present ones, so
    a count of [h] is back at zero only after at least [h] net absent
    frames. *)
Theorem unbounded_accumulation (args : Args) :
  (forall s ts,
     consecutive_hits s = 0 ->
     consecutive_hits (final args s (present_ticks ts)) = Z.of_nat (length ts)) /\
  (forall s k ts rest,
     consecutive_hits s = 0 ->
     length ts = k ->
     consecutive_hits (final args s (present_ticks ts ++ rest)) = 0 ->
     Z.of_nat k <= count_absent rest - count_present rest).
Proof.
  assert (A : forall ts s,
             consecutive_hits (final args s (present_ticks ts)) =
             consecutive_hits s + Z.of_nat (length ts)).
  { induction ts as [|t ts IH]; intros s.
    - cbn. lia.
    - cbn [present_ticks map]. rewrite final_cons.
      fold (present_ticks ts). rewrite IH, step_hits.
      unfold next_hits; cbn [T phone_present_this_frame length]. lia. }
  assert (B : forall ticks s,
             consecutive_hits s + count_present ticks - count_absent ticks
             <= consecutive_hits (final args s ticks)).
  { unfold count_present, count_absent.
    induction ticks as [|tk rest IH]; intros s.
    - cbn. lia.
    - rewrite final_cons. specialize (IH (snd (step args s tk))).
      rewrite step_hits in IH. unfold next_hits in IH.
      cbn [filter]. destruct (phone_present_this_frame tk); cbn [negb length] in *; lia. }
  split.
  - intros s ts Hs. rewrite A, Hs. lia.
  - intros s k ts rest Hs Hk Hz.
    rewrite final_app in Hz.
    pose proof (B rest (final args s (present_ticks ts))) as HB.
    rewrite A, Hs, Hk, Hz in HB. lia.
Qed.

(** C9 at a concrete run: threshold 2, five frames with a phone, then four
    without are not enough to bring the count back to zero but five are. *)
Lemma unbounded_accumulation_witness :
  let args := {| frames := 2; cooldown := 0%float |} in
  consecutive_hits (final args init_state (present_ticks [1; 2; 3; 4; 5]%float)) = 5 /\
  Z.of_nat 5 <= count_absent [F 6; F 7; F 8; F 9; F 10] - count_present [F 6; F 7; F 8; F 9; F 10].
Proof.
  cbv zeta. split.
  - exact (proj1 (unbounded_accumulation _) init_state [1; 2; 3; 4; 5]%float eq_refl).
  - apply (proj2 (unbounded_accumulation {| frames := 2; cooldown := 0%float |})
             init_state 5%nat [1; 2; 3; 4; 5]%float [F 6; F 7; F 8; F 9; F 10]);
      reflexivity.
Defined.


(** ** The frame condition *)

(** C8: an iteration that does not fire leaves [last_trigger_time] as it
    was; [detected_stable] either keeps its value or goes from true to
    false, and it does the latter exactly when the count ends at zero. *)
Theorem no_trigger_frame (args : Args) (s : State) (tk : Tick) :
  fst (step args s tk) = false ->
  let s' := snd (step args s tk) in
  last_trigger_time s' = last_trigger_time s /\
  (detected_stable s' = detected_stable s \/
   (detected_stable s = true /\ detected_stable s' = false /\
    consecutive_hits s' = 0)) /\
  (detected_stable s = true -> consecutive_hits s' = 0 ->
   detected_stable s' = false).
Proof.
  intros Hf s'. subst s'.
  destruct (step_no_fire args s tk Hf) as [Hl Hst].
  rewrite step_hits, Hst. split; [exact Hl|].
  destruct (detected_stable s); cbn [andb].
  - destruct (Z.eqb_spec (next_hits s tk) 0) as [Hz|Hz].
    + split; [right; now repeat split | reflexivity].
    + split; [now left | intros _ H; contradiction].
  - split; [now left | discriminate].
Qed.

(** C8 at a concrete iteration: the flag is set, the count is 1 and the
    frame has no phone, so the flag is cleared and the stamp kept. *)
Lemma no_trigger_frame_witness :
  let args := {| frames := 3; cooldown := 10%float |} in
  let s := {| consecutive_hits := 1; detected_stable := true;
              last_trigger_time := 100%float |} in
  let s' := snd (step args s (F 101)) in
  last_trigger_time s' = 100%float /\
  (detected_stable s' = true \/
   (true = true /\ detected_stable s' = false /\ consecutive_hits s' = 0)) /\
  (true = true -> consecutive_hits s' = 0 -> detected_stable s' = false).
Proof.
  exact (no_trigger_frame {| frames := 3; cooldown := 10%float |}
           {| consecutive_hits := 1; detected_stable := true;
              last_trigger_time := 100%float |} (F 101) eq_refl).
Defined.

(** ** Thresholds that are not positive *)

(** C10: with [--frames] at or below zero the comparison against the
    threshold holds for the initial count 0, and the first iteration fires,
    with or without a phone in the frame, as soon as the cooldown test
    passes. *)
Theorem degenerate_threshold_fires (args : Args) (tk : Tick) :
  frames args <= 0 ->
  cooldown_elapsed args init_state (now tk) = true ->
  (frames args <=? consecutive_hits init_state) = true /\
  fst (step args init_state tk) = true.
Proof.
  intros Hf Hc. split.
  - apply Z.leb_le. exact Hf.
  - rewrite step_fire, Hc. unfold became_stable. cbn [init_state detected_stable negb andb].
    rewrite andb_true_r. apply Z.leb_le.
    pose proof (next_hits_nonneg init_state tk) as H. cbn [init_state consecutive_hits] in H.
    lia.
Qed.

(** C10 at a concrete start: [--frames 0 --cooldown 10] and a first frame
    without a phone. *)
Lemma degenerate_threshold_fires_witness :
  (0 <=? consecutive_hits init_state) = true /\
  fst (step {| frames := 0; cooldown := 10%float |} init_state (F 1700000000)) = true.
Proof.
  apply (degenerate_threshold_fires {| frames := 0; cooldown := 10%float |} (F 1700000000)).
  - cbn. lia.
  - reflexivity.
Defined.

(** ** The first trigger *)

(** C2, as claimed, fails: with [--frames 3 --cooldown 5] and phone frames
    at times 0, 1, 2, 3, 10 the threshold is reached at time 2, but the
    initial stamp is the number 0.0, so the test [2 - 0.0 >= 5] fails and
    nothing fires at time 2; the call happens at time 10. *)
Lemma first_trigger_counterexample :
  let args := {| frames := 3; cooldown := 5%float |} in
  let tr := run args init_state [T 0; T 1; T 2; T 3; T 10] in
  nth_error (hit_scores tr) 2 = Some (frames args) /\
  nth_error (triggers tr) 2 = Some false /\
  triggers tr = [false; false; false; false; true].
Proof. cbv zeta. repeat split; reflexivity. Qed.

(** C2, amended: [last_trigger_time] starts as 0.0, not as a value that
    passes every test.  As long as nothing has fired, an iteration fires
    exactly when the count has reached the threshold and the frame's time
    minus 0.0 is at least the cooldown.  In the scenario that is time 10. *)
Theorem first_trigger_gate (args : Args) (ticks : list Tick) (tk : Tick) :
  Forall (fun o => fst o = false) (run args init_state ticks) ->
  fst (step args (final args init_state ticks) tk) =
    (frames args <=? next_hits (final args init_state ticks) tk) &&
    PrimFloat.leb (cooldown args) (PrimFloat.sub (now tk) 0%float) /\
  triggers (run {| frames := 3; cooldown := 5%float |} init_state
              [T 0; T 1; T 2; T 3; T 10]) = [false; false; false; false; true].
Proof.
  intros Hq. split; [|reflexivity].
  destruct (quiet_run_keeps args ticks init_state eq_refl Hq) as [Hst Hl].
  rewrite step_fire. unfold became_stable, cooldown_elapsed.
  rewrite Hst, Hl. reflexivity.
Qed.

(** C2, amended, at the scenario: after the frames at 0 and 1 the frame at
    time 2 does not fire, because [5 <= 2 - 0] is false. *)
Lemma first_trigger_gate_witness :
  fst (step {| frames := 3; cooldown := 5%float |}
         (final {| frames := 3; cooldown := 5%float |} init_state [T 0; T 1]) (T 2)) =
    (3 <=? next_hits (final {| frames := 3; cooldown := 5%float |} init_state [T 0; T 1]) (T 2)) &&
    PrimFloat.leb 5%float (PrimFloat.sub 2%float 0%float) /\
  triggers (run {| frames := 3; cooldown := 5%float |} init_state
              [T 0; T 1; T 2; T 3; T 10]) = [false; false; false; false; true].
Proof.
  apply (first_trigger_gate {| frames := 3; cooldown := 5%float |} [T 0; T 1] (T 2)).
  repeat constructor.
Defined.

(** ** Start-up checks *)

(** C3, as claimed, fails: [--url ... --frames 0 --cooldown -1] is
    accepted, the model loads, the camera opens, the loop starts, and its
    first frame, which shows nothing, already fires. *)
Lemma construction_validation_counterexample :
  let cl := {| arg_url := Some "https://example.org/v"%string;
               arg_camera := omitted; arg_model := None; arg_conf := omitted;
               arg_frames := given 0; arg_cooldown := given (-1)%float;
               arg_open_with := None; arg_show := false |} in
  let f0 := {| ok := true; boxes := None; time_time := 0%float; waitKey := -1 |} in
  0 <= 0 /\ PrimFloat.ltb (-1)%float 0%float = true /\
  main cl (Some None) true true [f0] =
    inr [(true, {| consecutive_hits := 0; detected_stable := false;
                   last_trigger_time := 0%float |})] /\
  (forall e, main cl (Some None) true true [f0] <> inl e).
Proof. cbv zeta. repeat split; try reflexivity; try lia; discriminate. Qed.

(** C3, amended: neither value is checked.  Whether start-up fails, and
    how (argparse refusing the command line, the model not loading, the
    camera not opening), is the same for every integer given to [--frames]
    and every float given to [--cooldown]; and when start-up succeeds the
    namespace holds exactly the two values given and the loop runs with
    them. *)
Theorem no_construction_validation (cl : CommandLine) (f f' : Z) (c c' : float)
    (loaded : option (option (list (Z * string))))
    (avfoundation_ok default_ok : bool) (fs : list Frame) :
  (forall e,
     main (with_values cl f c) loaded avfoundation_ok default_ok fs = inl e <->
     main (with_values cl f' c') loaded avfoundation_ok default_ok fs = inl e) /\
  (forall ns,
     parse_args (with_values cl f c) = Some ns ->
     ns_args ns = {| frames := f; cooldown := c |}) /\
  (forall tr,
     main (with_values cl f c) loaded avfoundation_ok default_ok fs = inr tr ->
     exists ns names,
       parse_args (with_values cl f c) = Some ns /\
       loaded = Some names /\
       tr = loop {| frames := f; cooldown := c |} (ns_show ns)
                 (match names with Some m => m | None => [] end)
                 (resolve_phone_ids names) (ns_conf ns) init_state fs).
Proof.
  assert (P : forall g d,
            parse_args (with_values cl g d) =
            match arg_url cl, convert (arg_camera cl) 0,
                  convert (arg_conf cl) default_conf with
            | Some u, Some cam, Some cf =>
                Some {| ns_url := u; ns_camera := cam;
                        ns_model := match arg_model cl with
                                    | Some m => m
                                    | None => "yolov8n.pt"%string
                                    end;
                        ns_conf := cf;
                        ns_args := {| frames := g; cooldown := d |};
                        ns_open_with := arg_open_with cl;
                        ns_show := arg_show cl |}
            | _, _, _ => None
            end).
  { intros g d. unfold parse_args, with_values.
    cbn [arg_url arg_camera arg_model arg_conf arg_frames arg_cooldown
         arg_open_with arg_show convert].
    destruct (arg_url cl), (convert (arg_camera cl) 0),
             (convert (arg_conf cl) default_conf); reflexivity. }
  split; [|split].
  - intros e. unfold main. rewrite !P.
    destruct (arg_url cl), (convert (arg_camera cl) 0),
             (convert (arg_conf cl) default_conf); try reflexivity.
    destruct loaded as [names|]; [|reflexivity].
    destruct (camera_opened avfoundation_ok default_ok); [|reflexivity].
    split; discriminate.
  - intros ns H. rewrite P in H.
    destruct (arg_url cl), (convert (arg_camera cl) 0),
             (convert (arg_conf cl) default_conf); try discriminate.
    injection H as <-. reflexivity.
  - intros tr H. unfold main in H. rewrite P in *.
    destruct (arg_url cl), (convert (arg_camera cl) 0),
             (convert (arg_conf cl) default_conf); try discriminate.
    destruct loaded as [names|]; [|discriminate].
    destruct (camera_opened avfoundation_ok default_ok); [|discriminate].
    injection H as <-. eexists. exists names.
    split; [reflexivity|]. split; reflexivity.
Qed.

(** ** Flicker *)

(** C7, as claimed, fails: a fresh loop with threshold 4 and the
    non-negative cooldown 10 sees phone, phone, none, phone, phone, phone
    at times 0 to 5.  The counts are 1, 2, 1, 2, 3, 4, but the stamp starts
    as 0.0 and [5 - 0.0 >= 10] is false, so the sixth frame does not fire.
    The same happens with clock readings near 1.7e9 and a cooldown of
    2e9. *)
Lemma flicker_tolerance_counterexample :
  let tr := run {| frames := 4; cooldown := 10%float |} init_state
              [T 0; T 1; F 2; T 3; T 4; T 5] in
  let tr' := run {| frames := 4; cooldown := 2000000000%float |} init_state
               [T 1700000001; T 1700000002; F 1700000003;
                T 1700000004; T 1700000005; T 1700000006] in
  PrimFloat.leb 0%float 10%float = true /\
  hit_scores tr = [1; 2; 1; 2; 3; 4] /\
  nth_error (triggers tr) 5 = Some false /\
  triggers tr = [false; false; false; false; false; false] /\
  triggers tr' = [false; false; false; false; false; false].
Proof. cbv zeta. repeat split; reflexivity. Qed.

(** C7, amended: threshold 4, nothing accumulated, flag unset, and frames
    phone, phone, none, phone, phone, phone.  The counts are always
    1, 2, 1, 2, 3, 4 and the first five frames never fire; the sixth frame
    fires exactly when its cooldown test
    [t6 - last_trigger_time >= cooldown] passes, the stamp being 0.0 as
    long as nothing has fired.  The cooldown may be any float. *)
Theorem flicker_tolerance (c : float) (s : State) (t1 t2 t3 t4 t5 t6 : float) :
  consecutive_hits s = 0 ->
  detected_stable s = false ->
  let args := {| frames := 4; cooldown := c |} in
  let tr := run args s [T t1; T t2; F t3; T t4; T t5; T t6] in
  hit_scores tr = [1; 2; 1; 2; 3; 4] /\
  triggers tr =
    [false; false; false; false; false; cooldown_elapsed args s t6] /\
  (s = init_state ->
   nth_error (triggers tr) 5 = Some (PrimFloat.leb c (PrimFloat.sub t6 0%float))).
Proof.
  destruct s as [h st l]. cbn [consecutive_hits detected_stable].
  intros -> ->. cbv zeta.
  assert (Htr : triggers (run {| frames := 4; cooldown := c |}
                   {| consecutive_hits := 0; detected_stable := false;
                      last_trigger_time := l |}
                   [T t1; T t2; F t3; T t4; T t5; T t6]) =
                [false; false; false; false; false;
                 PrimFloat.leb c (PrimFloat.sub t6 l)]).
  { unfold triggers. cbn [run map]. rewrite !step_fire.
    unfold became_stable, cooldown_elapsed.
    cbn -[PrimFloat.leb PrimFloat.sub]. reflexivity. }
  split; [reflexivity|]. split.
  - rewrite Htr. reflexivity.
  - intros E. rewrite Htr. injection E as <-. reflexivity.
Qed.

(** C7, amended, from the initial state with [--cooldown 10] and clock
    readings around 1.7e9, where the test passes and the sixth frame
    fires. *)
Lemma flicker_tolerance_witness :
  let args := {| frames := 4; cooldown := 10%float |} in
  let tr := run args init_state
              [T 1700000001; T 1700000002; F 1700000003;
               T 1700000004; T 1700000005; T 1700000006] in
  triggers tr = [false; false; false; false; false; true] /\
  (hit_scores tr = [1; 2; 1; 2; 3; 4] /\
   triggers tr =
     [false; false; false; false; false;
      cooldown_elapsed args init_state 1700000006%float] /\
   (init_state = init_state ->
    nth_error (triggers tr) 5 =
      Some (PrimFloat.leb 10%float (PrimFloat.sub 1700000006%float 0%float)))).
Proof.
  cbv zeta. split; [reflexivity|].
  apply (flicker_tolerance 10%float init_state); reflexivity.
Defined.

(** ** Cooldown and episodes *)

(** C4: in a state the loop can reach, let the count reach the threshold on
    a frame while the flag is unset and the cooldown test fails.  That frame
    fires nothing, leaves the flag unset and the stamp as it was.  If every
    following frame shows a phone, then the frames whose time still fails
    the test fire nothing, the first frame whose time passes it fires, and
    no frame after that one fires. *)
Theorem pending_fire (args : Args) (hist : list Tick) (tk : Tick)
    (pre : list float) (t : float) (post : list float) :
  let s := final args init_state hist in
  detected_stable s = false ->
  frames args <= next_hits s tk ->
  cooldown_elapsed args s (now tk) = false ->
  Forall (fun u => cooldown_elapsed args s u = false) pre ->
  cooldown_elapsed args s t = true ->
  let o := step args s tk in
  fst o = false /\
  detected_stable (snd o) = false /\
  last_trigger_time (snd o) = last_trigger_time s /\
  triggers (run args (snd o) (present_ticks (pre ++ t :: post))) =
    repeat false (length pre) ++ true :: repeat false (length post).
Proof.
  intros s Hs Hreach Hcool Hpre Ht o. subst o.
  assert (Hh : 0 <= consecutive_hits s).
  { apply final_hits_nonneg. cbn. lia. }
  assert (Hq : fst (step args s tk) = false).
  { rewrite step_fire, Hcool. apply andb_false_r. }
  destruct (step_no_fire args s tk Hq) as [Hl Hst].
  rewrite Hs in Hst; cbn [andb] in Hst.
  repeat split; try assumption.
  set (s1 := snd (step args s tk)) in *.
  assert (Hh1 : 0 <= consecutive_hits s1).
  { unfold s1. rewrite step_hits. now apply next_hits_nonneg. }
  assert (Hf1 : frames args <= consecutive_hits s1).
  { unfold s1. now rewrite step_hits. }
  destruct (pending_present_quiet args pre s1 Hst Hh1 Hf1) as (P1 & P2 & P3 & P4 & P5).
  { eapply Forall_impl; [|exact Hpre].
    intros u Hu. cbv beta in *. rewrite <- Hu. now apply cooldown_elapsed_ext. }
  unfold present_ticks in *. rewrite map_app, run_app.
  unfold triggers in *. rewrite map_app, P1. f_equal.
  set (s2 := final args s1 (map T pre)) in *.
  cbn [map run].
  assert (Hfire : fst (step args s2 (T t)) = true).
  { rewrite step_fire. unfold became_stable. rewrite P2. cbn [negb andb T now].
    rewrite (cooldown_elapsed_ext args s2 s t) by (now rewrite P5).
    rewrite Ht, andb_true_r. apply Z.leb_le.
    rewrite next_hits_T. lia. }
  rewrite Hfire. f_equal.
  destruct (step_on_fire args s2 (T t) Hfire) as (_ & _ & _ & _ & Hstab).
  apply (stable_present_quiet args post).
  - rewrite Hstab. apply negb_true_iff, Z.eqb_neq.
    rewrite next_hits_T. lia.
  - rewrite step_hits, next_hits_T. lia.
Qed.

(** C4 on a second episode: [--frames 2 --cooldown 5].  The first episode
    fires at time 101 and is drained by two frames without a phone.  The
    count is back at 2 at time 105, one second short of the cooldown; the
    frame at 105.5 is still short, the frame at 106 fires, 107 and 108 do
    not. *)
Lemma pending_fire_witness :
  let args := {| frames := 2; cooldown := 5%float |} in
  let s := final args init_state [T 100; T 101; F 102; F 103; T 104] in
  let o := step args s (T 105) in
  fst o = false /\
  detected_stable (snd o) = false /\
  last_trigger_time (snd o) = last_trigger_time s /\
  triggers (run args (snd o) (present_ticks ([105.5] ++ 106 :: [107; 108])%float)) =
    repeat false 1 ++ true :: repeat false 2.
Proof.
  apply (pending_fire {| frames := 2; cooldown := 5%float |}
           [T 100; T 101; F 102; F 103; T 104] (T 105)
           [105.5%float] 106%float [107%float; 108%float]).
  - reflexivity.
  - cbn. lia.
  - reflexivity.
  - repeat constructor.
  - reflexivity.
Defined.

(** C5: if two iterations of a run fire, then at or after the earlier one
    and before the later one some iteration ended with the count at exactly
    zero, and the later one ended with the count at or above the threshold.
    With a positive threshold the zero lies strictly after the earlier
    fire. *)
Theorem one_trigger_per_episode (args : Args) (s : State) (ticks : list Tick)
    (i j : nat) (si sj : State) :
  nth_error (run args s ticks) i = Some (true, si) ->
  nth_error (run args s ticks) j = Some (true, sj) ->
  (i < j)%nat ->
  frames args <= consecutive_hits sj /\
  exists k o,
    (i <= k < j)%nat /\
    nth_error (run args s ticks) k = Some o /\
    consecutive_hits (snd o) = 0 /\
    (0 < frames args -> (i < k)%nat).
Proof.
  intros Hi Hj Hij. split.
  - destruct (run_nth _ _ _ _ _ Hj) as (s' & tk & E).
    assert (Hf : fst (step args s' tk) = true) by now rewrite <- E.
    destruct (step_on_fire _ _ _ Hf) as (_ & Hle & _).
    rewrite <- step_hits with (args := args) in Hle. now rewrite <- E in Hle.
  - revert s i j Hi Hj Hij.
    induction ticks as [|tk rest IH]; intros s i j Hi Hj Hij.
    + destruct i; discriminate.
    + destruct j as [|j]; [lia|].
      cbn [run nth_error] in Hj.
      destruct i as [|i].
      * cbn [run nth_error] in Hi. apply some_pair in Hi as [Hf _].
        destruct (step_on_fire _ _ _ Hf) as (_ & Hle & _ & _ & Hst).
        destruct (Z.eq_dec (next_hits s tk) 0) as [Hz|Hnz].
        -- exists 0%nat, (step args s tk). repeat split; try lia. exact Hz.
        -- assert (Hst' : detected_stable (snd (step args s tk)) = true).
           { rewrite Hst. now apply negb_true_iff, Z.eqb_neq. }
           destruct (stable_until_zero _ _ _ _ _ Hst' Hj) as (k & o & Hk & Ho & Hz).
           exists (S k), o. repeat split; try lia; assumption.
      * cbn [run nth_error] in Hi.
        destruct (IH _ _ _ Hi Hj) as (k & o & Hk & Ho & Hz & Hpos); [lia|].
        exists (S k), o. repeat split; try lia; assumption.
Qed.

(** C5 on a run with two episodes, [--frames 2 --cooldown 0]: the fires
    are iterations 1 and 5, and the count is zero after iteration 3. *)
Lemma one_trigger_per_episode_witness :
  let args := {| frames := 2; cooldown := 0%float |} in
  let ticks := [T 10; T 11; F 12; F 13; T 14; T 15] in
  triggers (run args init_state ticks) = [false; true; false; false; false; true] /\
  (2 <= 2 /\
   exists k o,
     (1 <= k < 5)%nat /\
     nth_error (run args init_state ticks) k = Some o /\
     consecutive_hits (snd o) = 0 /\
     (0 < 2 -> (1 < k)%nat)).
Proof.
  cbv zeta. split; [reflexivity|].
  apply (one_trigger_per_episode {| frames := 2; cooldown := 0%float |} init_state
           [T 10; T 11; F 12; F 13; T 14; T 15] 1 5
           {| consecutive_hits := 2; detected_stable := true; last_trigger_time := 11%float |}
           {| consecutive_hits := 2; detected_stable := true; last_trigger_time := 15%float |}).
  - reflexivity.
  - reflexivity.
  - lia.
Defined.

(** C6: in a run from the initial state, whenever [detected_stable] is
    true after an iteration, some iteration up to and including that one
    fired with the count at or above the threshold and set the flag; and
    in any state, an iteration that takes the flag from true to false ends
    with the count at exactly zero. *)
Theorem stability_flag_invariant (args : Args) :
  (forall ticks j o,
     nth_error (run args init_state ticks) j = Some o ->
     detected_stable (snd o) = true ->
     exists i si,
       (i <= j)%nat /\
       nth_error (run args init_state ticks) i = Some (true, si) /\
       frames args <= consecutive_hits si /\
       detected_stable si = true) /\
  (forall s tk,
     detected_stable s = true ->
     detected_stable (snd (step args s tk)) = false ->
     consecutive_hits (snd (step args s tk)) = 0).
Proof.
  split.
  - assert (G : forall ticks s j o,
               detected_stable s = false ->
               nth_error (run args s ticks) j = Some o ->
               detected_stable (snd o) = true ->
               exists i si,
                 (i <= j)%nat /\
                 nth_error (run args s ticks) i = Some (true, si) /\
                 frames args <= consecutive_hits si /\
                 detected_stable si = true).
    { induction ticks as [|tk rest IH]; intros s j o Hs Hj Ho.
      - destruct j; discriminate.
      - destruct j as [|j]; cbn [run nth_error] in Hj.
        + injection Hj as <-.
          destruct (fst (step args s tk)) eqn:Hf.
          * destruct (step_on_fire _ _ _ Hf) as (_ & Hle & _).
            exists 0%nat, (snd (step args s tk)). repeat split; try lia.
            -- cbn [run nth_error]. f_equal. rewrite <- Hf. apply surjective_pairing.
            -- now rewrite step_hits.
            -- exact Ho.
          * destruct (step_no_fire _ _ _ Hf) as [_ Hst].
            rewrite Hs in Hst; cbn [andb] in Hst. congruence.
        + destruct (detected_stable (snd (step args s tk))) eqn:Hst1.
          * destruct (fst (step args s tk)) eqn:Hf.
            -- destruct (step_on_fire _ _ _ Hf) as (_ & Hle & _).
               exists 0%nat, (snd (step args s tk)). repeat split; try lia.
               ++ cbn [run nth_error]. f_equal. rewrite <- Hf. apply surjective_pairing.
               ++ now rewrite step_hits.
               ++ exact Hst1.
            -- destruct (step_no_fire _ _ _ Hf) as [_ Hst].
               rewrite Hs in Hst; cbn [andb] in Hst. congruence.
          * destruct (IH _ _ _ Hst1 Hj Ho) as (i & si & Hi & Hn & Hle & Hsi).
            exists (S i), si. repeat split; try lia; assumption. }
    intros ticks j o. now apply G.
  - intros s tk Hs Hs'.
    rewrite step_hits.
    destruct (Z.eq_dec (next_hits s tk) 0) as [Hz|Hnz]; [exact Hz|].
    destruct (step_keeps_stable args s tk Hs Hnz) as [_ Hk]. congruence.
Qed.

(** C6 on a run with [--frames 2 --cooldown 0]: the flag is true after
    iteration 2, set by the fire of iteration 1; and it is cleared by the
    frame that takes the count from 1 to 0. *)
Lemma stability_flag_invariant_witness :
  let args := {| frames := 2; cooldown := 0%float |} in
  let ticks := [T 10; T 11; F 12; F 13] in
  (exists i si,
     (i <= 2)%nat /\
     nth_error (run args init_state ticks) i = Some (true, si) /\
     frames args <= consecutive_hits si /\
     detected_stable si = true) /\
  consecutive_hits
    (snd (step args {| consecutive_hits := 1; detected_stable := true;
                       last_trigger_time := 11%float |} (F 13))) = 0.
Proof.
  cbv zeta. split.
  - apply (proj1 (stability_flag_invariant {| frames := 2; cooldown := 0%float |})
             [T 10; T 11; F 12; F 13] 2%nat
             (false, {| consecutive_hits := 1; detected_stable := true;
                        last_trigger_time := 11%float |})); reflexivity.
  - apply (proj2 (stability_flag_invariant {| frames := 2; cooldown := 0%float |}));
      reflexivity.
Defined.

(** * Further properties of the loop body *)

Section Engine.

Variable args : Args.

(** The state recorded at position [j] is the state after the first [j+1]
    frames. *)
Lemma run_nth_final : forall ticks s j o,
  nth_error (run args s ticks) j = Some o ->
  snd o = final args s (firstn (S j) ticks).
Proof.
  induction ticks as [|tk rest IH]; intros s j o Hj.
  - destruct j; discriminate.
  - destruct j as [|j]; cbn [run nth_error] in Hj.
    + injection Hj as <-. reflexivity.
    + change (firstn (S (S j)) (tk :: rest)) with (tk :: firstn (S j) rest).
      rewrite final_cons. now apply IH.
Qed.

(** The count grows by at most one for each frame with a phone. *)
Lemma hits_le_present : forall ticks s,
  0 <= consecutive_hits s ->
  consecutive_hits (final args s ticks) <= consecutive_hits s + count_present ticks.
Proof.
  unfold count_present.
  induction ticks as [|tk rest IH]; intros s Hs.
  - cbn. lia.
  - rewrite final_cons.
    assert (Hn : 0 <= consecutive_hits (snd (step args s tk))).
    { rewrite step_hits. now apply next_hits_nonneg. }
    specialize (IH _ Hn). rewrite step_hits in IH. unfold next_hits in IH.
    cbn [filter]. destruct (phone_present_this_frame tk); cbn [length]; lia.
Qed.

Lemma fire_counts_present (ticks : list Tick) (j : nat) (sj : State) :
  nth_error (run args init_state ticks) j = Some (true, sj) ->
  frames args <= count_present (firstn (S j) ticks).
Proof.
  intros Hj.
  destruct (run_nth _ _ _ _ _ Hj) as (s' & tk & E).
  assert (Hf : fst (step args s' tk) = true) by now rewrite <- E.
  destruct (step_on_fire _ _ _ Hf) as (_ & Hle & _).
  rewrite <- (step_hits args), <- E in Hle. cbn [snd] in Hle.
  pose proof (run_nth_final _ _ _ _ Hj) as Hfin. cbn [snd] in Hfin.
  pose proof (hits_le_present (firstn (S j) ticks) init_state) as Hb.
  rewrite <- Hfin in Hb. cbn [init_state consecutive_hits] in Hb. lia.
Qed.

(** X1: an iteration fires only if at least [--frames] of the frames up to
    and including it showed a phone. *)
Theorem trigger_needs_enough_present (ticks : list Tick) (j : nat) (sj : State) :
  nth_error (run args init_state ticks) j = Some (true, sj) ->
  frames args <= count_present (firstn (S j) ticks).
Proof.
  intros Hj.
  assert (Hfin : sj = final args init_state (firstn (S j) ticks)).
  { exact (run_nth_final _ _ _ _ Hj). }
  assert (Hle : frames args <= consecutive_hits sj).
  { destruct (run_nth _ _ _ _ _ Hj) as (s' & tk & E).
    assert (Hf : fst (step args s' tk) = true) by now rewrite <- E.
    destruct (step_on_fire _ _ _ Hf) as (_ & H & _).
    rewrite <- (step_hits args), <- E in H. exact H. }
  assert (Hb : consecutive_hits sj <= 0 + count_present (firstn (S j) ticks)).
  { rewrite Hfin. apply (hits_le_present (firstn (S j) ticks) init_state). cbn. lia. }
  lia.
Qed.

(** While nothing fires the stamp is kept, whatever the flag is. *)
Lemma quiet_prefix_keeps_stamp : forall ticks s j o,
  nth_error (run args s ticks) j = Some o ->
  (forall k o', (k < j)%nat -> nth_error (run args s ticks) k = Some o' -> fst o' = false) ->
  exists s', last_trigger_time s' = last_trigger_time s /\
             exists tk, nth_error ticks j = Some tk /\ o = step args s' tk.
Proof.
  induction ticks as [|tk rest IH]; intros s j o Hj Hq.
  - destruct j; discriminate.
  - destruct j as [|j]; cbn [run nth_error] in Hj.
    + injection Hj as <-. exists s. split; [reflexivity|]. now exists tk.
    + assert (H0 : fst (step args s tk) = false).
      { apply (Hq 0%nat); [lia | reflexivity]. }
      destruct (step_no_fire _ _ _ H0) as [Hl _].
      destruct (IH _ _ _ Hj) as (s' & Hs' & tk' & Htk & E).
      * intros k o' Hk Ho'. apply (Hq (S k)); [lia | exact Ho'].
      * exists s'. split; [now rewrite Hs'|]. now exists tk'.
Qed.

(** X2: two fires with none between them are at least the cooldown apart,
    in the arithmetic the code uses: the test
    [now_j - now_i >= args.cooldown] holds. *)
Theorem triggers_cooldown_apart (s : State) (ticks : list Tick)
    (i j : nat) (si sj : State) (tki tkj : Tick) :
  nth_error (run args s ticks) i = Some (true, si) ->
  nth_error (run args s ticks) j = Some (true, sj) ->
  nth_error ticks i = Some tki ->
  nth_error ticks j = Some tkj ->
  (i < j)%nat ->
  (forall k o, (i < k < j)%nat -> nth_error (run args s ticks) k = Some o -> fst o = false) ->
  PrimFloat.leb (cooldown args) (PrimFloat.sub (now tkj) (now tki)) = true.
Proof.
  revert s i j.
  induction ticks as [|tk rest IH]; intros s i j Hi Hj Hti Htj Hij Hq.
  - destruct i; discriminate.
  - destruct j as [|j]; [lia|].
    cbn [run nth_error] in Hj. cbn [nth_error] in Htj.
    destruct i as [|i].
    + cbn [run nth_error] in Hi. cbn [nth_error] in Hti. injection Hti as ->.
      apply some_pair in Hi as [Hf _].
      destruct (step_on_fire _ _ _ Hf) as (_ & _ & _ & Hl & _).
      destruct (quiet_prefix_keeps_stamp _ _ _ _ Hj) as (s' & Hs' & tk' & Htk' & E).
      * intros k o' Hk Ho'. apply (Hq (S k)); [lia | exact Ho'].
      * assert (tk' = tkj) by congruence. subst tk'.
        assert (Hf' : fst (step args s' tkj) = true) by now rewrite <- E.
        destruct (step_on_fire _ _ _ Hf') as (_ & _ & Hc & _).
        unfold cooldown_elapsed in Hc. now rewrite Hs', Hl in Hc.
    + cbn [run nth_error] in Hi. cbn [nth_error] in Hti.
      apply (IH (snd (step args s tk)) i j); try assumption; [lia|].
      intros k o Hk Ho. apply (Hq (S k)); [lia | exact Ho].
Qed.

(** One iteration establishes: the count is not negative, and a set flag
    comes with a positive count. *)
Lemma step_invariant s tk :
  0 <= consecutive_hits s ->
  0 <= consecutive_hits (snd (step args s tk)) /\
  (detected_stable (snd (step args s tk)) = true ->
   0 < consecutive_hits (snd (step args s tk))).
Proof.
  intros Hs. rewrite step_hits.
  pose proof (next_hits_nonneg s tk Hs) as Hn. split; [exact Hn|].
  unfold step; cbn [snd detected_stable].
  destruct (Z.eqb_spec (next_hits s tk) 0) as [Hz|Hz].
  - rewrite andb_true_r.
    destruct (if became_stable args s tk && cooldown_elapsed args s (now tk)
              then true else detected_stable s); discriminate.
  - intros _. lia.
Qed.

(** X3: after every iteration of a run from the initial state the count is
    not negative, and whenever [detected_stable] is true the count is
    positive. *)
Theorem stable_has_positive_hits (ticks : list Tick) (j : nat) (o : bool * State) :
  nth_error (run args init_state ticks) j = Some o ->
  0 <= consecutive_hits (snd o) /\
  (detected_stable (snd o) = true -> 0 < consecutive_hits (snd o)).
Proof.
  assert (G : forall ts s k,
             0 <= consecutive_hits s ->
             nth_error (run args s ts) k = Some o ->
             0 <= consecutive_hits (snd o) /\
             (detected_stable (snd o) = true -> 0 < consecutive_hits (snd o))).
  { induction ts as [|tk rest IH]; intros s k Hs Hk.
    - destruct k; discriminate.
    - destruct k as [|k]; cbn [run nth_error] in Hk.
      + injection Hk as <-. now apply step_invariant.
      + apply (IH (snd (step args s tk)) k); [|exact Hk].
        now apply step_invariant. }
  apply G. cbn. lia.
Qed.

(** With a positive threshold, an idle loop stays idle on frames without
    a phone. *)
Lemma idle_absent_quiet : forall ts s,
  0 < frames args ->
  detected_stable s = false ->
  consecutive_hits s = 0 ->
  triggers (run args s (absent_ticks ts)) = repeat false (length ts) /\
  consecutive_hits (final args s (absent_ticks ts)) = 0 /\
  detected_stable (final args s (absent_ticks ts)) = false /\
  last_trigger_time (final args s (absent_ticks ts)) = last_trigger_time s.
Proof.
  induction ts as [|t ts IH]; intros s Hf Hs Hh; [now repeat split|].
  assert (Hn : next_hits s (F t) = 0).
  { unfold next_hits; cbn [F phone_present_this_frame]. lia. }
  assert (Hq : fst (step args s (F t)) = false).
  { rewrite step_fire. unfold became_stable. rewrite Hn.
    destruct (Z.leb_spec (frames args) 0); [lia|]. now rewrite andb_false_r. }
  destruct (step_no_fire _ _ _ Hq) as [Hl Hst].
  rewrite Hs in Hst; cbn [andb] in Hst.
  destruct (IH (snd (step args s (F t))) Hf Hst) as (I1 & I2 & I3 & I4).
  { now rewrite step_hits. }
  unfold absent_ticks, triggers in *.
  cbn [map run length repeat]. rewrite Hq, I1.
  change (final args s (F t :: map F ts)) with (final args (snd (step args s (F t))) (map F ts)).
  repeat split; try assumption. now rewrite I4.
Qed.

(** X4: draining an episode.  With a positive threshold, from a state
    with the flag set and the count at [h > 0], [n] frames without a phone
    fire nothing, leave the count at [max 0 (h - n)], and leave the flag set
    exactly when [n < h]. *)
Theorem drain_clears_flag (s : State) (ts : list float) :
  0 < frames args ->
  detected_stable s = true ->
  0 < consecutive_hits s ->
  triggers (run args s (absent_ticks ts)) = repeat false (length ts) /\
  consecutive_hits (final args s (absent_ticks ts)) =
    Z.max 0 (consecutive_hits s - Z.of_nat (length ts)) /\
  detected_stable (final args s (absent_ticks ts)) =
    (Z.of_nat (length ts) <? consecutive_hits s).
Proof.
  intros Hf. revert s.
  induction ts as [|t ts IH]; intros s Hs Hh.
  - cbn [absent_ticks map run triggers length repeat final fold_left Z.of_nat].
    repeat split; [lia|]. rewrite Hs. symmetry. apply Z.ltb_lt. exact Hh.
  - assert (Hn : next_hits s (F t) = consecutive_hits s - 1).
    { unfold next_hits; cbn [F phone_present_this_frame]. lia. }
    assert (Hq : fst (step args s (F t)) = false).
    { rewrite step_fire. unfold became_stable. now rewrite Hs. }
    destruct (step_no_fire _ _ _ Hq) as [_ Hst]. rewrite Hs, Hn in Hst. cbn [andb] in Hst.
    unfold absent_ticks, triggers in *. cbn [map run length repeat].
    change (final args s (F t :: map F ts)) with (final args (snd (step args s (F t))) (map F ts)).
    rewrite Hq.
    destruct (Z.eqb_spec (consecutive_hits s - 1) 0) as [Hz|Hz].
    + destruct (idle_absent_quiet ts (snd (step args s (F t))) Hf Hst) as (I1 & I2 & I3 & _).
      { rewrite step_hits, Hn. exact Hz. }
      unfold absent_ticks, triggers in *. rewrite I1, I2, I3.
      repeat split; [lia|]. symmetry. apply Z.ltb_ge. lia.
    + destruct (IH (snd (step args s (F t))) Hst) as (I1 & I2 & I3).
      { rewrite step_hits, Hn. lia. }
      rewrite I1, I2, I3, step_hits, Hn.
      repeat split; [lia|].
      destruct (Z.ltb_spec (Z.of_nat (length ts)) (consecutive_hits s - 1));
        destruct (Z.ltb_spec (Z.of_nat (S (length ts))) (consecutive_hits s)); lia || reflexivity.
Qed.

(** Below the threshold, frames with a phone only count. *)
Lemma climbing_quiet : forall ts s,
  detected_stable s = false ->
  consecutive_hits s + Z.of_nat (length ts) < frames args ->
  triggers (run args s (present_ticks ts)) = repeat false (length ts) /\
  detected_stable (final args s (present_ticks ts)) = false /\
  consecutive_hits (final args s (present_ticks ts)) =
    consecutive_hits s + Z.of_nat (length ts) /\
  last_trigger_time (final args s (present_ticks ts)) = last_trigger_time s.
Proof.
  induction ts as [|t ts IH]; intros s Hs Hlt.
  - cbn. repeat split; [exact Hs | lia].
  - cbn [length] in Hlt.
    assert (Hq : fst (step args s (T t)) = false).
    { rewrite step_fire. unfold became_stable. rewrite next_hits_T.
      destruct (Z.leb_spec (frames args) (consecutive_hits s + 1)); [lia|].
      now rewrite andb_false_r. }
    destruct (step_no_fire _ _ _ Hq) as [Hl Hst].
    rewrite Hs in Hst; cbn [andb] in Hst.
    destruct (IH (snd (step args s (T t))) Hst) as (I1 & I2 & I3 & I4).
    { rewrite step_hits, next_hits_T. lia. }
    unfold present_ticks, triggers in *. cbn [map run length repeat].
    change (final args s (T t :: map T ts)) with (final args (snd (step args s (T t))) (map T ts)).
    rewrite Hq, I1, I3, I4, step_hits, next_hits_T.
    repeat split; try assumption; lia.
Qed.

(** X5: a phone held in view.  From a state with a zero count and the
    flag unset, and with a positive threshold [n], frames that all show a
    phone fire exactly once, on the [n]-th frame, provided the cooldown test
    passes on that frame; the frames after it fire nothing however long the
    phone stays. *)
Theorem sustained_presence_fires_once (s : State)
    (pre : list float) (t : float) (post : list float) :
  consecutive_hits s = 0 ->
  detected_stable s = false ->
  Z.of_nat (length pre) = frames args - 1 ->
  cooldown_elapsed args s t = true ->
  triggers (run args s (present_ticks (pre ++ t :: post))) =
    repeat false (length pre) ++ true :: repeat false (length post).
Proof.
  intros Hh Hs Hlen Hc.
  destruct (climbing_quiet pre s Hs) as (C1 & C2 & C3 & C4); [lia|].
  unfold present_ticks, triggers in *.
  rewrite map_app, run_app, map_app, C1. f_equal.
  set (s1 := final args s (map T pre)) in *.
  cbn [map run].
  assert (Hfire : fst (step args s1 (T t)) = true).
  { rewrite step_fire. unfold became_stable. rewrite C2, next_hits_T. cbn [negb andb].
    rewrite (cooldown_elapsed_ext args s1 s) by exact C4.
    cbn [T now]. rewrite Hc, andb_true_r. apply Z.leb_le. lia. }
  rewrite Hfire. f_equal.
  destruct (step_on_fire _ _ _ Hfire) as (_ & _ & _ & _ & Hst).
  apply (stable_present_quiet args post).
  - rewrite Hst, next_hits_T. apply negb_true_iff, Z.eqb_neq. lia.
  - rewrite step_hits, next_hits_T. lia.
Qed.

(** X6: the frame that fires need not show a phone.  When the count is
    above the threshold, the flag is unset and the cooldown test passes, a
    frame without a phone fires, stamps its own time and sets the flag. *)
Theorem absent_frame_can_fire (s : State) (t : float) :
  detected_stable s = false ->
  0 < frames args < consecutive_hits s ->
  cooldown_elapsed args s t = true ->
  step args s (F t) =
    (true, {| consecutive_hits := consecutive_hits s - 1;
              detected_stable := true;
              last_trigger_time := t |}).
Proof.
  intros Hs Hh Hc.
  assert (Hn : next_hits s (F t) = consecutive_hits s - 1).
  { unfold next_hits; cbn [F phone_present_this_frame]. lia. }
  unfold step, became_stable. rewrite !Hn, Hs.
  replace (cooldown_elapsed args s (now (F t))) with true by (symmetry; exact Hc).
  destruct (Z.leb_spec (frames args) (consecutive_hits s - 1)); [|lia].
  cbn [negb andb].
  destruct (Z.eqb_spec (consecutive_hits s - 1) 0); [lia|]. reflexivity.
Qed.

End Engine.

(** X1 on two frames with [--frames 2]: the second one fires, and both
    showed a phone. *)
Lemma trigger_needs_enough_present_witness :
  2 <= count_present (firstn 2 [T 10; T 11]).
Proof.
  apply (trigger_needs_enough_present {| frames := 2; cooldown := 0%float |}
           [T 10; T 11] 1
           {| consecutive_hits := 2; detected_stable := true; last_trigger_time := 11%float |}).
  reflexivity.
Defined.

(** X2 with [--frames 2 --cooldown 5]: fires at times 101 and 106, the
    count being back at the threshold already at 105. *)
Lemma triggers_cooldown_apart_witness :
  PrimFloat.leb 5%float (PrimFloat.sub 106%float 101%float) = true.
Proof.
  apply (triggers_cooldown_apart {| frames := 2; cooldown := 5%float |} init_state
           [T 100; T 101; F 102; F 103; T 104; T 105; T 106] 1 6
           {| consecutive_hits := 2; detected_stable := true; last_trigger_time := 101%float |}
           {| consecutive_hits := 3; detected_stable := true; last_trigger_time := 106%float |}
           (T 101) (T 106)).
  - reflexivity.
  - reflexivity.
  - reflexivity.
  - reflexivity.
  - lia.
  - intros k o Hk Ho.
    assert (E : (k = 2 \/ k = 3 \/ k = 4 \/ k = 5)%nat) by lia.
    destruct E as [-> | [-> | [-> | ->]]]; vm_compute in Ho; injection Ho as <-; reflexivity.
Defined.

(** X3 after the firing frame of a two-frame run. *)
Lemma stable_has_positive_hits_witness :
  0 <= 2 /\ (true = true -> 0 < 2).
Proof.
  apply (stable_has_positive_hits {| frames := 2; cooldown := 0%float |}
           [T 10; T 11] 1
           (true, {| consecutive_hits := 2; detected_stable := true;
                     last_trigger_time := 11%float |})).
  reflexivity.
Defined.

(** X4 from a count of 3: two frames without a phone leave the flag set,
    the third clears it. *)
Lemma drain_clears_flag_witness :
  let args := {| frames := 2; cooldown := 0%float |} in
  let s := {| consecutive_hits := 3; detected_stable := true; last_trigger_time := 11%float |} in
  (detected_stable (final args s (absent_ticks [12; 13]%float)) = true) /\
  (triggers (run args s (absent_ticks [12; 13; 14; 15]%float)) = repeat false 4 /\
   consecutive_hits (final args s (absent_ticks [12; 13; 14; 15]%float)) = Z.max 0 (3 - 4) /\
   detected_stable (final args s (absent_ticks [12; 13; 14; 15]%float)) = (4 <? 3)).
Proof.
  cbv zeta. split; [reflexivity|].
  apply (drain_clears_flag {| frames := 2; cooldown := 0%float |}
           {| consecutive_hits := 3; detected_stable := true; last_trigger_time := 11%float |}
           [12; 13; 14; 15]%float); [cbn; lia | reflexivity | cbn; lia].
Defined.

(** X5 from the initial state with [--frames 3 --cooldown 10]. *)
Lemma sustained_presence_fires_once_witness :
  triggers (run {| frames := 3; cooldown := 10%float |} init_state
              (present_ticks ([1700000001; 1700000002] ++ 1700000003 ::
                              [1700000004; 1700000005])%float)) =
    repeat false 2 ++ true :: repeat false 2.
Proof.
  apply (sustained_presence_fires_once {| frames := 3; cooldown := 10%float |} init_state
           [1700000001; 1700000002]%float 1700000003%float
           [1700000004; 1700000005]%float); reflexivity.
Defined.

(** X6 in a state the loop reaches with [--frames 2 --cooldown 5]: after
    a fire at 101 and a drained episode the count is 3 at time 105.5, with
    the cooldown still running; the frame at 106 has no phone and fires. *)
Lemma absent_frame_can_fire_witness :
  let args := {| frames := 2; cooldown := 5%float |} in
  let s := final args init_state
             [T 100; T 101; F 102; F 103; T 104; T 105; T 105.5] in
  step args s (F 106) =
    (true, {| consecutive_hits := consecutive_hits s - 1;
              detected_stable := true;
              last_trigger_time := 106%float |}).
Proof.
  apply (absent_frame_can_fire {| frames := 2; cooldown := 5%float |}
           (final {| frames := 2; cooldown := 5%float |} init_state
              [T 100; T 101; F 102; F 103; T 104; T 105; T 105.5]) 106%float).
  - reflexivity.
  - vm_compute. split; reflexivity.
  - reflexivity.
Defined.

(** * The frames and the loop's exits *)

Section Frames.

Variables (args : Args) (show : bool) (name_map : list (Z * string))
          (phone_ids : list Z) (args_conf : float).

Lemma loop_run : forall fs s,
  loop args show name_map phone_ids args_conf s fs =
  run args s (map (tick_of show name_map phone_ids args_conf) (processed show fs)).
Proof.
  induction fs as [|f rest IH]; intros s; [reflexivity|].
  cbn [loop processed]. destruct (ok f); [|reflexivity].
  destruct (show && quit_pressed (waitKey f)); [reflexivity|].
  cbn [map run]. now rewrite IH.
Qed.

(** X7: the record the loop leaves is the record of the loop body run
    over the frames it got through, so every statement about [run] holds
    for the loop with its exits; and it has one entry per such frame. *)
Theorem loop_is_run_on_processed (s : State) (fs : list Frame) :
  loop args show name_map phone_ids args_conf s fs =
    run args s (map (tick_of show name_map phone_ids args_conf) (processed show fs)) /\
  length (loop args show name_map phone_ids args_conf s fs) = length (processed show fs) /\
  (length (processed show fs) <= length fs)%nat.
Proof.
  split; [apply loop_run|]. split.
  - now rewrite loop_run, run_length, length_map.
  - induction fs as [|f rest IH]; [cbn; lia|].
    cbn [processed]. destruct (ok f); [|cbn; lia].
    destruct (show && quit_pressed (waitKey f)); cbn [length]; lia.
Qed.

Lemma processed_prefix : forall fs,
  exists rest, fs = processed show fs ++ rest.
Proof.
  induction fs as [|f rest [r IH]]; [now exists []|].
  cbn [processed]. destruct (ok f); [|now exists (f :: rest)].
  destruct (show && quit_pressed (waitKey f)); [now exists rest|].
  exists r. cbn [app]. now rewrite <- IH.
Qed.

(** X8: where the loop stops.  The frames it gets through are a prefix
    of the frames offered, all of them read successfully.  It stops short
    only before a frame that could not be read, or, under [--show], right
    after a frame on which [q] was seen; and no earlier frame that it got
    through had [q] seen under [--show]. *)
Theorem loop_stops_where (fs : list Frame) :
  exists rest,
    fs = processed show fs ++ rest /\
    Forall (fun f => ok f = true) (processed show fs) /\
    (rest = [] \/
     (exists f r, rest = f :: r /\ ok f = false) \/
     (show = true /\
      exists before f, processed show fs = before ++ [f] /\
                       quit_pressed (waitKey f) = true)) /\
    (forall before f after,
       processed show fs = before ++ f :: after -> after <> [] ->
       show && quit_pressed (waitKey f) = false).
Proof.
  induction fs as [|f fs' (rest & E & Hok & Hstop & Hmid)].
  - exists []. repeat split; [constructor | now left |].
    intros before f after H. destruct before; discriminate.
  - cbn [processed]. destruct (ok f) eqn:Hf.
    + destruct (show && quit_pressed (waitKey f)) eqn:Hq.
      * exists fs'. repeat split.
        -- constructor; [exact Hf | constructor].
        -- right; right. apply andb_prop in Hq as [-> Hq].
           split; [reflexivity|]. now exists [], f.
        -- intros before g after H Hne.
           destruct before as [|b before]; cbn [app] in H.
           ++ injection H as _ <-. contradiction.
           ++ injection H as _ H. destruct before; discriminate.
      * exists rest. repeat split.
        -- cbn [app]. now rewrite <- E.
        -- constructor; assumption.
        -- destruct Hstop as [-> | [H | (Hs & before & g & Hb & Hg)]].
           ++ now left.
           ++ right; now left.
           ++ right; right. split; [exact Hs|].
              exists (f :: before), g. cbn [app]. now rewrite Hb.
        -- intros before g after H Hne.
           destruct before as [|b before]; cbn [app] in H.
           ++ injection H as <- _. exact Hq.
           ++ injection H as _ H. now apply (Hmid before g after).
    + exists (f :: fs'). repeat split.
      * constructor.
      * right; left. now exists f, fs'.
      * intros before g after H. destruct before; discriminate.
Qed.

(** X9: the quit test looks at the low byte of the key code only: it
    holds exactly when the code is 113 modulo 256.  In particular the value
    -1 that stands for no key does not quit. *)
Theorem quit_pressed_low_byte (key : Z) :
  quit_pressed key = (key mod 256 =? 113) /\ quit_pressed (-1) = false.
Proof.
  split; [|reflexivity].
  unfold quit_pressed. change 255 with (Z.ones 8).
  rewrite Z.land_ones by lia. reflexivity.
Qed.

Lemma scan_fold : forall bs acc,
  fold_left (scan_box show name_map phone_ids args_conf) bs acc =
  (fst acc || existsb (is_phone_box phone_ids args_conf) bs,
   snd acc ++
   flat_map (fun box =>
     if show then
       if is_phone_box phone_ids args_conf box then
         [rectangle (x1 box, y1 box) (x2 box, y2 box) (0, 200, 0) 2;
          putText (dict_get name_map (cls_id box) "phone"%string) (conf box)
                  (x1 box, Z.max 0 (y1 box - 8)) (0, 200, 0) 2]
       else [rectangle (x1 box, y1 box) (x2 box, y2 box) (90, 90, 90) 1]
     else []) bs).
Proof.
  induction bs as [|b bs IH]; intros [flag ops].
  - cbn. now rewrite orb_false_r, app_nil_r.
  - cbn [fold_left existsb flat_map]. rewrite IH. unfold scan_box. cbn [fst snd].
    destruct (is_phone_box phone_ids args_conf b), show; cbn [fst snd orb];
      rewrite ?orb_true_r, ?app_nil_r, <- ?app_assoc; reflexivity.
Qed.

Lemma scan_flag (bxs : option (list Box)) :
  fst (scan_boxes show name_map phone_ids args_conf bxs) =
  match bxs with
  | Some bs => existsb (is_phone_box phone_ids args_conf) bs
  | None => false
  end.
Proof.
  destruct bxs as [bs|]; [|reflexivity].
  unfold scan_boxes. destruct bs as [|b bs]; [reflexivity|].
  cbn [length Nat.ltb Nat.leb]. now rewrite scan_fold.
Qed.

(** X10: a frame counts as showing a phone exactly when one of its boxes
    has a class among [phone_ids] and a confidence that passes
    [conf >= args.conf]; a frame without boxes does not.  Neither the
    order of the boxes nor [--show] enters. *)
Theorem phone_present_iff (bs : list Box) :
  (fst (scan_boxes show name_map phone_ids args_conf (Some bs)) = true <->
   exists box, In box bs /\ In (cls_id box) phone_ids /\
               PrimFloat.leb args_conf (conf box) = true) /\
  fst (scan_boxes show name_map phone_ids args_conf None) = false /\
  fst (scan_boxes show name_map phone_ids args_conf (Some [])) = false.
Proof.
  split; [|split; reflexivity].
  rewrite scan_flag, existsb_exists. unfold is_phone_box.
  split.
  - intros (b & Hb & H). apply andb_prop in H as [Hc Hf].
    apply existsb_exists in Hc as (k & Hk & E). apply Z.eqb_eq in E. subst k.
    now exists b.
  - intros (b & Hb & Hc & Hf). exists b. split; [exact Hb|].
    rewrite Hf, andb_true_r. apply existsb_exists. exists (cls_id b).
    split; [exact Hc | apply Z.eqb_refl].
Qed.

End Frames.

(** * Drawing *)

Section Drawing.

Variables (name_map : list (Z * string)) (phone_ids : list Z) (args_conf : float).

Lemma scan_ops (show : bool) (bs : list Box) :
  snd (scan_boxes show name_map phone_ids args_conf (Some bs)) =
  flat_map (fun box =>
     if show then
       if is_phone_box phone_ids args_conf box then
         [rectangle (x1 box, y1 box) (x2 box, y2 box) (0, 200, 0) 2;
          putText (dict_get name_map (cls_id box) "phone"%string) (conf box)
                  (x1 box, Z.max 0 (y1 box - 8)) (0, 200, 0) 2]
       else [rectangle (x1 box, y1 box) (x2 box, y2 box) (90, 90, 90) 1]
     else []) bs.
Proof.
  unfold scan_boxes. destruct bs as [|b bs]; [reflexivity|].
  cbn [length Nat.ltb Nat.leb]. now rewrite scan_fold.
Qed.

(** X11: what is drawn.  Without [--show] nothing is drawn on the frame.
    With it the calls are, box by box and in the order of the boxes: for a
    box that counts as a phone a green rectangle of thickness 2 on the
    box's own corners, followed by a green label of thickness 2 that
    carries the name looked up for the box's class (["phone"] when the
    class has no name) and the box's confidence, placed at the box's left
    edge and 8 above its top but never above the image,
    [(x1, max 0 (y1 - 8))]; for any other box a grey rectangle of thickness
    1 on the box's own corners and no label.  So there are as many
    rectangles as boxes and as many labels as phone boxes. *)
Theorem drawing_follows_show (bxs : option (list Box)) (bs : list Box) :
  snd (scan_boxes false name_map phone_ids args_conf bxs) = [] /\
  snd (scan_boxes true name_map phone_ids args_conf (Some bs)) =
    flat_map (fun box =>
      let phone := is_phone_box phone_ids args_conf box in
      rectangle (x1 box, y1 box) (x2 box, y2 box)
                (if phone then (0, 200, 0) else (90, 90, 90))
                (if phone then 2 else 1) ::
      (if phone
       then [putText (dict_get name_map (cls_id box) "phone"%string) (conf box)
                     (x1 box, Z.max 0 (y1 box - 8)) (0, 200, 0) 2]
       else [])) bs /\
  length (filter is_rectangle
            (snd (scan_boxes true name_map phone_ids args_conf (Some bs)))) = length bs /\
  length (snd (scan_boxes true name_map phone_ids args_conf (Some bs))) =
    (length bs + length (filter (is_phone_box phone_ids args_conf) bs))%nat /\
  Forall label_on_image (snd (scan_boxes true name_map phone_ids args_conf (Some bs))).
Proof.
  split; [|split; [|split; [|split]]].
  - destruct bxs as [l|]; [|reflexivity].
    rewrite scan_ops. induction l as [|b l IH]; [reflexivity | exact IH].
  - rewrite scan_ops.
    induction bs as [|b l IH]; [reflexivity|].
    cbn [flat_map]. rewrite IH. cbv zeta.
    destruct (is_phone_box phone_ids args_conf b); reflexivity.
  - rewrite scan_ops.
    induction bs as [|b l IH]; [reflexivity|].
    cbn [flat_map length]. rewrite filter_app, length_app, IH.
    destruct (is_phone_box phone_ids args_conf b); reflexivity.
  - rewrite scan_ops.
    induction bs as [|b l IH]; [reflexivity|].
    cbn [flat_map length filter]. rewrite length_app, IH.
    destruct (is_phone_box phone_ids args_conf b); cbn [length]; lia.
  - rewrite scan_ops.
    induction bs as [|b l IH]; [constructor|].
    cbn [flat_map]. apply Forall_app. split; [|exact IH].
    destruct (is_phone_box phone_ids args_conf b).
    + repeat constructor. cbn [snd]. lia.
    + repeat constructor.
Qed.

End Drawing.

(** * Which classes count as a phone *)

(** X12: [phone_ids] is never empty.  Without [model.names], or when no
    name matches, it is [[67]].  Otherwise it holds exactly the ids whose
    name matches: every id in it has a matching name, and every id with a
    matching name is in it. *)
Theorem phone_ids_resolved (name_map : list (Z * string)) :
  resolve_phone_ids (Some name_map) <> [] /\
  resolve_phone_ids None = [67] /\
  ((forall k n, In (k, n) name_map -> is_phone_name n = false) ->
   resolve_phone_ids (Some name_map) = [67]) /\
  (forall k n, In (k, n) name_map -> is_phone_name n = true ->
     In k (resolve_phone_ids (Some name_map)) /\
     forall k', In k' (resolve_phone_ids (Some name_map)) ->
       exists n', In (k', n') name_map /\ is_phone_name n' = true).
Proof.
  unfold resolve_phone_ids.
  set (ids := map fst (filter (fun item => is_phone_name (snd item)) name_map)).
  assert (Hin : forall k, In k ids <->
                  exists n, In (k, n) name_map /\ is_phone_name n = true).
  { intros k. unfold ids. rewrite in_map_iff. split.
    - intros ([k' n] & E & H). cbn [fst] in E. subst k'.
      apply filter_In in H as [H1 H2]. now exists n.
    - intros (n & H1 & H2). exists (k, n). split; [reflexivity|].
      apply filter_In. now split. }
  split; [|split; [reflexivity|split]].
  - destruct ids; discriminate.
  - intros Hnone. destruct ids as [|k l] eqn:E; [reflexivity|].
    destruct (proj1 (Hin k) (or_introl eq_refl)) as (n & H1 & H2).
    rewrite (Hnone _ _ H1) in H2. discriminate.
  - intros k n H1 H2.
    assert (Hk : In k ids) by (apply Hin; now exists n).
    destruct ids as [|k0 l] eqn:E; [destruct Hk|].
    split; [exact Hk|]. intros k' Hk'. now apply Hin.
Qed.

(** X12 for a model whose names are those of COCO around id 67. *)
Lemma phone_ids_resolved_witness :
  In 67 (resolve_phone_ids (Some [(66, "keyboard"); (67, "cell phone"); (68, "microwave")]%string)) /\
  forall k', In k' (resolve_phone_ids (Some [(66, "keyboard"); (67, "cell phone"); (68, "microwave")]%string)) ->
    exists n', In (k', n') [(66, "keyboard"); (67, "cell phone"); (68, "microwave")]%string /\
               is_phone_name n' = true.
Proof.
  apply (proj2 (proj2 (proj2 (phone_ids_resolved
           [(66, "keyboard"); (67, "cell phone"); (68, "microwave")]%string)))
           67 "cell phone"%string).
  - right; left; reflexivity.
  - reflexivity.
Defined.

(** ** Normalising a name *)

Lemma isspace_lower_char c : isspace (lower_char c) = isspace c.
Proof. destruct c as [[] [] [] [] [] [] [] []]; reflexivity. Qed.

Lemma lower_app a b : lower (a ++ b) = (lower a ++ lower b)%string.
Proof. induction a as [|c a IH]; cbn; [reflexivity | now rewrite IH]. Qed.

Lemma all_space_lower ws : all_space ws -> all_space (lower ws).
Proof.
  unfold all_space. induction ws as [|c ws IH]; cbn; intros H; [constructor|].
  inversion H; subst. constructor; [now rewrite isspace_lower_char | now apply IH].
Qed.

Lemma lstrip_all_space ws : all_space ws -> lstrip ws = EmptyString.
Proof.
  unfold all_space. induction ws as [|c ws IH]; cbn; intros H; [reflexivity|].
  inversion H as [|? ? Hc Hr]; subst. rewrite Hc. now apply IH.
Qed.

Lemma lstrip_space_app ws n : all_space ws -> lstrip (ws ++ n) = lstrip n.
Proof.
  unfold all_space. induction ws as [|c ws IH]; cbn; intros H; [reflexivity|].
  inversion H as [|? ? Hc Hr]; subst. rewrite Hc. now apply IH.
Qed.

Lemma rstrip_all_space ws : all_space ws -> rstrip ws = EmptyString.
Proof.
  unfold all_space. induction ws as [|c ws IH]; cbn; intros H; [reflexivity|].
  inversion H as [|? ? Hc Hr]; subst. rewrite (IH Hr), Hc. reflexivity.
Qed.

Lemma rstrip_app_space ws n : all_space ws -> rstrip (n ++ ws) = rstrip n.
Proof.
  intros H. induction n as [|c n IH]; cbn.
  - now apply rstrip_all_space.
  - now rewrite IH.
Qed.

Lemma strip_app_space ws n : all_space ws -> strip (n ++ ws) = strip n.
Proof.
  intros H. unfold strip. induction n as [|c n IH]; cbn.
  - now rewrite lstrip_all_space.
  - destruct (isspace c); [exact IH|].
    change (String c (n ++ ws)) with (String c n ++ ws)%string.
    now apply rstrip_app_space.
Qed.

(** X13: for names and padding written with code points below 256:
    a name matches exactly when it matches with any run of the twelve
    white-space characters of that range (tab, line feed, vertical tab,
    form feed, carriage return, the separators 28 to 31, space, NEL and
    the no-break space) put before it and after it. *)
Theorem padding_is_ignored (ws1 n ws2 : string) :
  all_space ws1 -> all_space ws2 ->
  is_phone_name (ws1 ++ n ++ ws2) = is_phone_name n.
Proof.
  intros H1 H2. unfold is_phone_name.
  rewrite !lower_app.
  assert (E : strip (lower ws1 ++ lower n ++ lower ws2) = strip (lower n)).
  { unfold strip. rewrite lstrip_space_app by now apply all_space_lower.
    apply (strip_app_space (lower ws2) (lower n)). now apply all_space_lower. }
  now rewrite E.
Qed.

(** X13 on a name as a labelling tool may write it, with a leading tab
    and a trailing line feed. *)
Lemma padding_is_ignored_witness :
  is_phone_name (String (ascii_of_N 9) "" ++ "Cell_Phone" ++ String (ascii_of_N 10) "") =
  is_phone_name "Cell_Phone".
Proof.
  apply (padding_is_ignored (String (ascii_of_N 9) "") "Cell_Phone"
           (String (ascii_of_N 10) "")); repeat constructor.
Defined.

Lemma rstrip_cons_kept c m :
  isspace c = false -> exists k, rstrip (String c m) = String c k.
Proof.
  intros Hc. cbn. destruct (rstrip m) as [|d k].
  - rewrite Hc. now exists EmptyString.
  - now exists (String d k).
Qed.

Lemma lstrip_app_kept c : isspace c = false -> forall m,
  exists k, lstrip (m ++ String c "") = (k ++ String c "")%string.
Proof.
  intros Hc. induction m as [|d m IH]; cbn.
  - rewrite Hc. now exists EmptyString.
  - destruct (isspace d); [exact IH|]. now exists (String d m).
Qed.

Lemma rstrip_app_kept c : isspace c = false -> forall k,
  rstrip (k ++ String c "") = (k ++ String c "")%string.
Proof.
  intros Hc. induction k as [|d k IH]; cbn.
  - now rewrite Hc.
  - rewrite IH. destruct k; reflexivity.
Qed.

Lemma replace_underscore_app a b :
  replace_underscore (a ++ b) = (replace_underscore a ++ replace_underscore b)%string.
Proof. induction a as [|c a IH]; cbn; [reflexivity | now rewrite IH]. Qed.

Lemma last_of_append x c d :
  last (list_ascii_of_string (x ++ String c "")) d = c.
Proof.
  induction x as [|e x IH]; [reflexivity|].
  cbn [append list_ascii_of_string].
  remember (list_ascii_of_string (x ++ String c "")) as l eqn:E.
  destruct l as [|a l].
  - destruct x; discriminate.
  - change (last (e :: a :: l) d) with (last (a :: l) d). exact IH.
Qed.

(** X14: the underscore is replaced only after stripping, so a name that
    begins or ends with an underscore never matches, whatever lies between:
    [_cell_phone] and [cell_phone_] are not phones although [cell_phone]
    is. *)
Theorem outer_underscore_never_matches (n : string) :
  is_phone_name (String "_" n) = false /\
  is_phone_name (n ++ "_") = false /\
  is_phone_name "cell_phone" = true.
Proof.
  split; [|split; [|reflexivity]].
  - unfold is_phone_name. cbn [lower].
    change (lower_char "_") with "_"%char. unfold strip. cbn [lstrip].
    change (isspace "_") with false. cbv iota.
    destruct (rstrip_cons_kept "_" (lower n) eq_refl) as [k ->].
    reflexivity.
  - unfold is_phone_name. rewrite lower_app. cbn [lower].
    change (lower_char "_") with "_"%char. unfold strip.
    destruct (lstrip_app_kept "_" eq_refl (lower n)) as [k ->].
    rewrite (rstrip_app_kept "_" eq_refl), replace_underscore_app.
    change (replace_underscore "_") with " "%string.
    unfold phone_names. cbn [existsb].
    repeat match goal with
    | |- context [String.eqb ?a ?b] =>
        destruct (String.eqb_spec a b) as [E|_];
        [ apply (f_equal (fun z => last (list_ascii_of_string z) "x"%char)) in E;
          rewrite last_of_append in E; vm_compute in E; discriminate | ]
    end.
    reflexivity.
Qed.

(** X14 read at the name [cell_phone]: with an underscore in front it is
    not a phone. *)
Lemma outer_underscore_never_matches_witness :
  is_phone_name "_cell_phone" = false /\
  is_phone_name ("cell_phone" ++ "_") = false /\
  is_phone_name "cell_phone" = true.
Proof. exact (outer_underscore_never_matches "cell_phone"). Defined.

(** * From the boxes to the call *)

Lemma count_present_ticks show name_map phone_ids args_conf (fs : list Frame) :
  count_present (map (tick_of show name_map phone_ids args_conf) fs) =
  Z.of_nat (length (filter
    (fun f => match boxes f with
              | Some bs => existsb (is_phone_box phone_ids args_conf) bs
              | None => false
              end) fs)).
Proof.
  unfold count_present. f_equal.
  induction fs as [|f fs IH]; [reflexivity|].
  cbn [map filter]. unfold tick_of at 1. cbn [phone_present_this_frame].
  rewrite scan_flag.
  destruct (match boxes f with
            | Some bs => existsb (is_phone_box phone_ids args_conf) bs
            | None => false
            end); cbn [length]; now rewrite IH.
Qed.

Lemma filter_firstn_prefix {A : Type} (q : A -> bool) (n : nat) (xs rest : list A) :
  (length (filter q (firstn n xs)) <= length (filter q (firstn n (xs ++ rest))))%nat.
Proof.
  rewrite firstn_app, filter_app, length_app. lia.
Qed.

(** X15: from the camera to the call.  If the loop, started in the
    initial state, fires on its [j+1]-th frame, then at least [--frames]
    of the first [j+1] frames had a box whose class is among [phone_ids]
    and whose confidence passes [conf >= args.conf].  So with a positive
    [--frames] the video is never opened on frames that show no phone. *)
Theorem video_needs_enough_phone_frames (args : Args) (show : bool)
    (name_map : list (Z * string)) (phone_ids : list Z) (args_conf : float)
    (fs : list Frame) (j : nat) (sj : State) :
  nth_error (loop args show name_map phone_ids args_conf init_state fs) j
    = Some (true, sj) ->
  frames args <=
    Z.of_nat (length (filter
      (fun f => match boxes f with
                | Some bs => existsb (is_phone_box phone_ids args_conf) bs
                | None => false
                end) (firstn (S j) fs))).
Proof.
  intros Hj. rewrite loop_run in Hj.
  apply fire_counts_present in Hj.
  rewrite firstn_map, count_present_ticks in Hj.
  destruct (processed_prefix show fs) as [rest E].
  rewrite E at 1.
  pose proof (filter_firstn_prefix
    (fun f => match boxes f with
              | Some bs => existsb (is_phone_box phone_ids args_conf) bs
              | None => false
              end) (S j) (processed show fs) rest) as Hle.
  lia.
Qed.

(** X15 on two frames, each with one box of class 67 at confidence 0.5,
    under [--frames 2 --conf 0.25]. *)
Lemma video_needs_enough_phone_frames_witness :
  let f := fun t => {| ok := true;
                       boxes := Some [{| cls_id := 67; conf := 0.5%float;
                                         x1 := 10; y1 := 4; x2 := 50; y2 := 90 |}];
                       time_time := t; waitKey := -1 |} in
  2 <= Z.of_nat (length (filter
      (fun f => match boxes f with
                | Some bs => existsb (is_phone_box [67] 0.25%float) bs
                | None => false
                end) (firstn 2 [f 10%float; f 11%float]))).
Proof.
  cbv zeta.
  apply (video_needs_enough_phone_frames {| frames := 2; cooldown := 0%float |}
           true [] [67] 0.25%float _ 1
           {| consecutive_hits := 2; detected_stable := true;
              last_trigger_time := 11%float |}).
  reflexivity.
Defined.

(** * Opening the link *)

(** X16: [open_link_on_mac] starts exactly one [open] process; its
    arguments begin with [open] and end with the URL, with [-a app] between
    exactly when an application name that is not empty was given (an empty
    [--open-with] is treated like none).  The browser fallback is used
    exactly when starting the process raised, and then with the same
    URL. *)
Theorem open_link_effects (url : string) (app : option string) (raised : bool) :
  exists middle rest,
    open_link_on_mac url app raised =
      subprocess_run ("open"%string :: middle ++ [url]) :: rest /\
    middle = match app with
             | Some a => if String.eqb a "" then [] else ["-a"%string; a]
             | None => []
             end /\
    (forall argv, ~ In (subprocess_run argv) rest) /\
    (In (webbrowser_open url) rest <-> raised = true) /\
    (forall u, In (webbrowser_open u) rest -> u = url).
Proof.
  exists (match app with
          | Some a => if String.eqb a "" then [] else ["-a"%string; a]
          | None => []
          end),
         (if raised then [webbrowser_open url; print_fallback] else []).
  split; [|split; [reflexivity|split; [|split]]].
  - unfold open_link_on_mac, open_argv.
    destruct app as [[|c a]|]; reflexivity.
  - intros argv H. destruct raised; cbn in H; intuition discriminate.
  - destruct raised; cbn; split; intros H; try reflexivity; try discriminate.
    + now left.
    + destruct H.
  - intros u H. destruct raised; cbn in H; [|destruct H].
    destruct H as [H|[H|[]]]; [now injection H | discriminate].
Qed.
